(** * Attitude determination kernel of the star-tracker tutorials

    A shallow embedding, over the real numbers, of the numerical kernel of
    the two star-tracker notebooks:

    - [radec_to_unitvec] and [solve_attitude] of the Gaia notebook (3D);
    - the synthetic 2D catalog, its normalisation, and the same
      [solve_attitude] of the triangulation notebook.

    Floating-point arrays are modelled as arrays of exact reals.  NumPy's
    two-dimensional arrays carry their shape; [@] raises [ValueError] on a
    shape mismatch.  [np.linalg.svd] is an external primitive: it is a
    parameter of the model, constrained only through its documented
    contract [svd_spec].  SciPy's [Rotation] is an external container: the
    model keeps the 3x3 matrix it was built from and the shape checks that
    the notebooks' own recorded tracebacks show. *)

From Stdlib Require Import String Reals Lra Psatz Bool Arith Lia List.
From Stdlib Require Import Permutation Machin.
Import ListNotations.
Open Scope R_scope.

Set Implicit Arguments.

(** ** Python exceptions as an error monad *)

Inductive result (A : Type) : Type :=
| Ok (a : A)
| Raise (exn : string).

Arguments Ok {A} a.
Arguments Raise {A} exn.

Definition bind {A B : Type} (r : result A) (k : A -> result B) : result B :=
  match r with
  | Ok a => k a
  | Raise e => Raise e
  end.

Notation "x <- e ;; k" := (bind e (fun x => k))
  (at level 61, e at next level, right associativity).

Definition ValueError : string := "ValueError".

(** ** NumPy arrays *)

Module Np.

(** A 2-D [ndarray]: its shape and its rows. *)
Record ndarray : Type := mk_ndarray {
  nrows : nat;
  ncols : nat;
  data : list (list R)
}.

(** The shape describes the data (true of every array NumPy builds). *)
Definition wf (A : ndarray) : Prop :=
  length (data A) = nrows A /\ Forall (fun r => length r = ncols A) (data A).

Definition shape (A : ndarray) : nat * nat := (nrows A, ncols A).

(** An array from its list of rows, all of width [d]. *)
Definition array (d : nat) (rows : list (list R)) : ndarray :=
  mk_ndarray (length rows) d rows.

(** Inner product of two 1-D arrays. *)
Fixpoint dot (u v : list R) : R :=
  match u, v with
  | a :: u', b :: v' => a * b + dot u' v'
  | _, _ => 0
  end.

(** Column [j] of a list of rows. *)
Definition col (j : nat) (rows : list (list R)) : list R :=
  map (fun r => nth j r 0) rows.

(** [A.T] *)
Definition transpose (A : ndarray) : ndarray :=
  mk_ndarray (ncols A) (nrows A)
             (map (fun j => col j (data A)) (seq 0 (ncols A))).

(** [A @ B]; NumPy raises [ValueError] when the inner dimensions differ. *)
Definition matmul (A B : ndarray) : result ndarray :=
  if Nat.eqb (ncols A) (nrows B)
  then Ok (mk_ndarray (nrows A) (ncols B)
             (map (fun r => map (fun k => dot r (col k (data B)))
                                (seq 0 (ncols B)))
                  (data A)))
  else Raise ValueError.

(** [np.outer u v] *)
Definition outer (u v : list R) : list (list R) :=
  map (fun a => map (fun b => a * b) v) u.

(** [np.zeros((p, q))] *)
Definition zeros (p q : nat) : list (list R) := repeat (repeat 0 q) p.

(** Element-wise combination of two equal-shaped lists. *)
Fixpoint zip_with {A B C : Type} (f : A -> B -> C) (l : list A) (m : list B)
  : list C :=
  match l, m with
  | a :: l', b :: m' => f a b :: zip_with f l' m'
  | _, _ => []
  end.

(** [A + B] on rows of equal shape. *)
Definition madd (A B : list (list R)) : list (list R) :=
  zip_with (zip_with Rplus) A B.

(** [w * A] *)
Definition mscale (w : R) (A : list (list R)) : list (list R) :=
  map (map (Rmult w)) A.

(** [np.eye(n)] *)
Definition eye (n : nat) : ndarray :=
  mk_ndarray n n
    (map (fun i => map (fun j => if Nat.eqb i j then 1 else 0) (seq 0 n))
         (seq 0 n)).

(** The [m] x [n] matrix with [s] on its diagonal, as [np.linalg.svd]'s
    documentation writes the reconstruction [U @ diag(S) @ Vt]. *)
Definition diag (m n : nat) (s : list R) : ndarray :=
  mk_ndarray m n
    (map (fun i => map (fun j => if Nat.eqb i j then nth i s 0 else 0)
                       (seq 0 n))
         (seq 0 m)).

(** Euclidean norm of a 1-D array ([np.linalg.norm]). *)
Definition norm (v : list R) : R := sqrt (dot v v).

End Np.

Import Np.

(** ** The cross-covariance matrix of the specification *)

(** Follows the spec's words: B = sum_i w_i * (observed_i (x) reference_i),
    an outer-product sum over the correspondences, [p] x [q]. *)
Fixpoint weighted_outer_sum (p q : nat) (w : list R)
         (observed reference : list (list R)) : list (list R) :=
  match w, observed, reference with
  | wi :: w', o :: observed', c :: reference' =>
      madd (mscale wi (outer o c)) (weighted_outer_sum p q w' observed' reference')
  | _, _, _ => zeros p q
  end.

(** The default weights: 1.0 for every correspondence. *)
Definition uniform_weights (n : nat) : list R := repeat 1 n.

(** ** Three-dimensional vectors and matrices *)

Module Lin3.

Record vec3 : Type := V3 { vx : R; vy : R; vz : R }.

Record mat3 : Type := M3 {
  m11 : R; m12 : R; m13 : R;
  m21 : R; m22 : R; m23 : R;
  m31 : R; m32 : R; m33 : R
}.

Definition vzero : vec3 := V3 0 0 0.

Definition vdot (u v : vec3) : R := vx u * vx v + vy u * vy v + vz u * vz v.

Definition vscale (k : R) (v : vec3) : vec3 := V3 (k * vx v) (k * vy v) (k * vz v).

Definition I3 : mat3 := M3 1 0 0 0 1 0 0 0 1.

Definition mdiag (a b c : R) : mat3 := M3 a 0 0 0 b 0 0 0 c.

Definition mtr (A : mat3) : mat3 :=
  M3 (m11 A) (m21 A) (m31 A)
     (m12 A) (m22 A) (m32 A)
     (m13 A) (m23 A) (m33 A).

Definition mmul (A B : mat3) : mat3 :=
  M3 (m11 A * m11 B + m12 A * m21 B + m13 A * m31 B)
     (m11 A * m12 B + m12 A * m22 B + m13 A * m32 B)
     (m11 A * m13 B + m12 A * m23 B + m13 A * m33 B)
     (m21 A * m11 B + m22 A * m21 B + m23 A * m31 B)
     (m21 A * m12 B + m22 A * m22 B + m23 A * m32 B)
     (m21 A * m13 B + m22 A * m23 B + m23 A * m33 B)
     (m31 A * m11 B + m32 A * m21 B + m33 A * m31 B)
     (m31 A * m12 B + m32 A * m22 B + m33 A * m32 B)
     (m31 A * m13 B + m32 A * m23 B + m33 A * m33 B).

Definition madd3 (A B : mat3) : mat3 :=
  M3 (m11 A + m11 B) (m12 A + m12 B) (m13 A + m13 B)
     (m21 A + m21 B) (m22 A + m22 B) (m23 A + m23 B)
     (m31 A + m31 B) (m32 A + m32 B) (m33 A + m33 B).

Definition mvec (A : mat3) (v : vec3) : vec3 :=
  V3 (m11 A * vx v + m12 A * vy v + m13 A * vz v)
     (m21 A * vx v + m22 A * vy v + m23 A * vz v)
     (m31 A * vx v + m32 A * vy v + m33 A * vz v).

(** The outer product u (x) v. *)
Definition outer3 (u v : vec3) : mat3 :=
  M3 (vx u * vx v) (vx u * vy v) (vx u * vz v)
     (vy u * vx v) (vy u * vy v) (vy u * vz v)
     (vz u * vx v) (vz u * vy v) (vz u * vz v).

Definition mzero : mat3 := M3 0 0 0 0 0 0 0 0 0.

Definition det3 (A : mat3) : R :=
  m11 A * (m22 A * m33 A - m23 A * m32 A)
  - m12 A * (m21 A * m33 A - m23 A * m31 A)
  + m13 A * (m21 A * m32 A - m22 A * m31 A).

Definition trace (A : mat3) : R := m11 A + m22 A + m33 A.

(** Orthonormal rows and columns. *)
Definition orthogonal3 (Q : mat3) : Prop :=
  mmul (mtr Q) Q = I3 /\ mmul Q (mtr Q) = I3.

(** A proper rotation: orthonormal, determinant +1. *)
Definition proper_rotation (Q : mat3) : Prop :=
  orthogonal3 Q /\ det3 Q = 1.

(** The sum over i of observed_i (x) reference_i, in 3x3 form. *)
Fixpoint cov3 (observed reference : list vec3) : mat3 :=
  match observed, reference with
  | o :: observed', c :: reference' => madd3 (outer3 o c) (cov3 observed' reference')
  | _, _ => mzero
  end.

Definition unit_vector (v : vec3) : Prop := vdot v v = 1.

(** The vectors span 3-space: no non-zero direction is orthogonal to all. *)
Definition spanning (vs : list vec3) : Prop :=
  forall x : vec3, (forall v, In v vs -> vdot v x = 0) -> x = vzero.

(** Quadratic form of a non-negative, respectively definite, matrix. *)
Definition pos_semidef (N : mat3) : Prop :=
  forall x : vec3, 0 <= vdot x (mvec N x).

Definition pos_def (N : mat3) : Prop :=
  forall x : vec3, vdot x (mvec N x) = 0 -> x = vzero.

(** All vectors on one line through the origin. *)
Definition collinear (vs : list vec3) : Prop :=
  exists d : vec3, forall v, In v vs -> exists k : R, v = vscale k d.

End Lin3.

Import Lin3.

(** A 3x3 matrix as a (3,3) array; n vectors as an (n,3) array. *)
Definition arr33 (A : mat3) : ndarray :=
  mk_ndarray 3 3
    [[m11 A; m12 A; m13 A]; [m21 A; m22 A; m23 A]; [m31 A; m32 A; m33 A]].

Definition row3 (v : vec3) : list R := [vx v; vy v; vz v].

Definition vec3_of_row (r : list R) : vec3 :=
  V3 (nth 0 r 0) (nth 1 r 0) (nth 2 r 0).

Definition rows3 (vs : list vec3) : ndarray := array 3 (map row3 vs).

(** ** SciPy's [Rotation], as far as the notebooks use it *)

Module Rotation.

(** A rotation object keeps the 3x3 matrix it was built from: the value
    the caller computed and handed to [from_matrix].  For a proper
    orthogonal matrix that is what SciPy's [as_matrix] gives back; what
    SciPy makes of any other matrix is not part of this repository. *)
Record t : Type := mk { matrix : mat3 }.

(** [R.from_matrix(M)]: only a (3,3) array is accepted. *)
Definition from_matrix (M : ndarray) : result t :=
  match shape M, data M with
  | (3%nat, 3%nat), [[a; b; c]; [d; e; f]; [g; h; i]] =>
      Ok (mk (M3 a b c d e f g h i))
  | _, _ => Raise ValueError
  end.

(** [r.apply(vectors)]: rotates every row; only a (P,3) array is accepted
    ("Expected input of shape (3,) or (P, 3), got (5, 2)"). *)
Definition apply (r : t) (vectors : ndarray) : result ndarray :=
  if Nat.eqb (ncols vectors) 3
  then Ok (mk_ndarray (nrows vectors) 3
             (map (fun v => row3 (mvec (matrix r) (vec3_of_row v)))
                  (data vectors)))
  else Raise ValueError.

(** [R.from_euler('z', theta_deg, degrees=True)] *)
Definition from_euler_z (theta_deg : R) : t :=
  let th := theta_deg * PI / 180 in
  mk (M3 (cos th) (- sin th) 0
         (sin th) (cos th)   0
         0        0          1).

(** [R.from_euler('xyz', [ax, ay, az], degrees=True)]: extrinsic turns
    about the fixed x axis, then y, then z. *)
Definition from_euler_xyz (ax_deg ay_deg az_deg : R) : t :=
  let a := ax_deg * PI / 180 in
  let b := ay_deg * PI / 180 in
  let c := az_deg * PI / 180 in
  mk (mmul (M3 (cos c) (- sin c) 0
               (sin c) (cos c)   0
               0        0        1)
        (mmul (M3 (cos b)   0  (sin b)
                  0         1  0
                  (- sin b) 0  (cos b))
              (M3 1  0        0
                  0  (cos a)  (- sin a)
                  0  (sin a)  (cos a)))).

End Rotation.

(** ** [np.linalg.svd]: contract of the external primitive *)

Definition orthogonal (Q : ndarray) : Prop :=
  matmul (transpose Q) Q = Ok (eye (ncols Q)) /\
  matmul Q (transpose Q) = Ok (eye (nrows Q)).

Fixpoint descending (s : list R) : Prop :=
  match s with
  | a :: (b :: _) as s' => b <= a /\ descending s'
  | _ => True
  end.

(** [U, S, Vt = np.linalg.svd(H)]: U and Vt square and orthogonal, S
    non-negative in descending order, and H = U @ diag(S) @ Vt. *)
Definition svd_spec (H : ndarray) (usv : ndarray * list R * ndarray) : Prop :=
  let '(U, sigma, Vt) := usv in
  wf U /\ wf Vt /\
  shape U = (nrows H, nrows H) /\ shape Vt = (ncols H, ncols H) /\
  length sigma = Nat.min (nrows H) (ncols H) /\
  orthogonal U /\ orthogonal Vt /\
  Forall (fun s => 0 <= s) sigma /\ descending sigma /\
  (US <- matmul U (diag (nrows H) (ncols H) sigma) ;; matmul US Vt) = Ok H.

(** ** The solver *)

Section Solver.

Variable svd : ndarray -> ndarray * list R * ndarray.

(** [def solve_attitude(observed, catalog)] *)
Definition solve_attitude (observed catalog : ndarray) : result Rotation.t :=
  H <- matmul (transpose observed) catalog ;;
  let '(U, _, Vt) := svd H in
  R_est <- matmul (transpose Vt) (transpose U) ;;
  Rotation.from_matrix R_est.

End Solver.

(** [np.linalg.svd] honours its contract on the matrix H of this call. *)
Definition svd_ok (svd : ndarray -> ndarray * list R * ndarray)
           (observed catalog : ndarray) : Prop :=
  forall H, matmul (transpose observed) catalog = Ok H -> svd_spec H (svd H).

(** ** Vocabulary of the specification *)

(** A valid correspondence set in 3D: as many observed as reference
    vectors, at least three pairs, unit vectors, references not all
    collinear. *)
Definition valid_correspondences (observed reference : list vec3) : Prop :=
  length observed = length reference /\
  (3 <= length reference)%nat /\
  Forall unit_vector observed /\ Forall unit_vector reference /\
  ~ collinear reference.

(** Angle of the rotation that takes A to B (geodesic distance on SO(3)). *)
Definition angle_between (A B : mat3) : R :=
  acos ((trace (mmul (mtr A) B) - 1) / 2).

(** The angular tolerance of the round-trip property, in radians. *)
Definition angular_tolerance : R := 1 / 1000000.

(** [clamp(x, lo, hi)] *)
Definition clamp (x lo hi : R) : R := Rmin (Rmax x lo) hi.

(** Follows the spec's words: the angular residual of one correspondence,
    arccos(clamp(rotated_observed . reference, -1, 1)). *)
Definition angular_residual (Rm : mat3) (observed reference : vec3) : R :=
  acos (clamp (vdot (mvec Rm observed) reference) (-1) 1).

(** ** Concrete scenarios *)

Definition e1 : vec3 := V3 1 0 0.
Definition e2 : vec3 := V3 0 1 0.
Definition e3 : vec3 := V3 0 0 1.

(** An SVD routine that answers with fixed factors. *)
Definition const_svd (u : mat3) (s : list R) (vt : mat3)
  : ndarray -> ndarray * list R * ndarray :=
  fun _ => (arr33 u, s, arr33 vt).

(** A mirrored star field: the third observed axis is flipped. *)
Definition mirror_catalog : list vec3 := [e1; e2; e3].
Definition mirror_observed : list vec3 := [e1; e2; V3 0 0 (-1)].
Definition mirror_svd := const_svd (mdiag 1 1 (-1)) [1; 1; 1] I3.

(** A quarter turn about z applied to the three axes. *)
Definition quarter_turn : mat3 := M3 0 (-1) 0  1 0 0  0 0 1.
Definition axes_catalog : list vec3 := [e1; e2; e3].
Definition quarter_observed : list vec3 := map (mvec quarter_turn) axes_catalog.
Definition quarter_svd := const_svd quarter_turn [1; 1; 1] I3.
Definition identity_svd := const_svd I3 [1; 1; 1] I3.

(** A correspondence set with a zero-magnitude observed vector. *)
Definition zero_observed : list vec3 := [e1; e2; vzero].

(** A correspondence set whose reference vectors are all the same. *)
Definition same_catalog : list vec3 := [e1; e1; e1].

(** ** The Gaia notebook: right ascension and declination to unit vectors *)

(** [np.radians] *)
Definition radians (a : list R) : list R := map (fun x => x * PI / 180) a.

(** An element-wise binary operation on two 1-D arrays; NumPy broadcasts an
    operand of length 1 and raises [ValueError] on any other mismatch. *)
Definition broadcast (f : R -> R -> R) (a b : list R) : result (list R) :=
  if Nat.eqb (length a) (length b) then Ok (zip_with f a b)
  else if Nat.eqb (length a) 1 then Ok (map (f (nth 0 a 0)) b)
  else if Nat.eqb (length b) 1 then Ok (map (fun x => f x (nth 0 b 0)) a)
  else Raise ValueError.

(** [np.vstack] of 1-D arrays: all of one length. *)
Definition vstack (rows : list (list R)) : result ndarray :=
  match rows with
  | [] => Raise ValueError
  | r :: rest =>
      if forallb (fun r' => Nat.eqb (length r') (length r)) rest
      then Ok (mk_ndarray (length rows) (length r) rows)
      else Raise ValueError
  end.

(** [def radec_to_unitvec(ra_deg, dec_deg)] *)
Definition radec_to_unitvec (ra_deg dec_deg : list R) : result ndarray :=
  let ra := radians ra_deg in
  let dec := radians dec_deg in
  x <- broadcast Rmult (map cos dec) (map cos ra) ;;
  y <- broadcast Rmult (map cos dec) (map sin ra) ;;
  let z := map sin dec in
  stacked <- vstack [x; y; z] ;;
  Ok (transpose stacked).

(** ** The triangulation notebook: a synthetic 2D sky *)

Module Triangulation2D.

(** The catalog as typed in. *)
Definition catalog_raw : ndarray :=
  array 2 [[1; 0];
           [0.5; sqrt 3 / 2];
           [-0.5; sqrt 3 / 2];
           [-1; 0];
           [0; -1]].

(** [A / np.linalg.norm(A, axis=1, keepdims=True)] *)
Definition normalize_rows (A : ndarray) : ndarray :=
  mk_ndarray (nrows A) (ncols A)
             (map (fun r => map (fun x => x / norm r) r) (data A)).

Definition catalog : ndarray := normalize_rows catalog_raw.

Definition theta_deg : R := 30.

Definition rotation : Rotation.t := Rotation.from_euler_z theta_deg.

(** [observed = rotation.apply(catalog)] *)
Definition observed : result ndarray := Rotation.apply rotation catalog.

(** A 2x2 SVD routine that answers 2.5 * I = I . diag(2.5, 2.5) . I. *)
Definition scaled_identity_svd : ndarray -> ndarray * list R * ndarray :=
  fun _ => (eye 2, [2.5; 2.5], eye 2).

End Triangulation2D.

(** ** Fit quality of a candidate rotation *)



(** ** More SVD routines for concrete runs *)

(** For an orthogonal H: H = H . diag(1, 1, 1) . I. *)
Definition rotation_svd : ndarray -> ndarray * list R * ndarray :=
  fun H => (H, [1; 1; 1], eye 3).

(** For a diagonal H with a non-negative, descending diagonal:
    H = I . diag(H00, H11, H22) . I. *)
Definition diagonal_svd : ndarray -> ndarray * list R * ndarray :=
  fun H => (eye 3,
            [nth 0 (nth 0 (data H) []) 0;
             nth 1 (nth 1 (data H) []) 0;
             nth 2 (nth 2 (data H) []) 0],
            eye 3).

(** A half turn about z, and the observations it gives of the axes. *)
Definition half_turn : mat3 := M3 (-1) 0 0  0 (-1) 0  0 0 1.

(** ** The Gaia notebook: simulated attitude and its estimate *)

Module GaiaNotebook.

(** [true_rot = R.from_euler('xyz', [10, 5, 25], degrees=True)] *)
Definition true_rot : Rotation.t := Rotation.from_euler_xyz 10 5 25.

(** The notebook from the two catalog columns on:
    [catalog_vecs = radec_to_unitvec(ra, dec)],
    [observed_vecs = true_rot.apply(catalog_vecs)],
    [R_est = solve_attitude(observed_vecs, catalog_vecs)]. *)
Definition estimate (svd : ndarray -> ndarray * list R * ndarray)
           (ra dec : list R) : result Rotation.t :=
  catalog_vecs <- radec_to_unitvec ra dec ;;
  observed_vecs <- Rotation.apply true_rot catalog_vecs ;;
  solve_attitude svd observed_vecs catalog_vecs.

End GaiaNotebook.

(** ** The parallax notebook *)

Module Parallax.

Definition ZeroDivisionError : string := "ZeroDivisionError".

(** [AU_PER_PC = 206265] *)
Definition AU_PER_PC : R := 206265.

(** [np.degrees] *)
Definition degrees (x : R) : R := x * 180 / PI.

(** [def compute_parallax(baseline_au, star_distance_pc)]; dividing a
    Python float by zero raises [ZeroDivisionError]. *)
Definition compute_parallax (baseline_au star_distance_pc : R) : result R :=
  let star_distance_au := star_distance_pc * AU_PER_PC in
  if Req_dec_T star_distance_au 0 then Raise ZeroDivisionError
  else
    let theta_rad := baseline_au / star_distance_au in
    let theta_arcsec := degrees theta_rad * 3600 in
    Ok theta_arcsec.

End Parallax.

(** One row of [radec_to_unitvec]: the unit vector of one star. *)
Definition unitvec (ra_deg dec_deg : R) : vec3 :=
  V3 (cos (dec_deg * PI / 180) * cos (ra_deg * PI / 180))
     (cos (dec_deg * PI / 180) * sin (ra_deg * PI / 180))
     (sin (dec_deg * PI / 180)).

(** ** Lemmas on lists of reals *)

Section ListFacts.

Lemma zip_with_map_seq (A B C : Type) (f : A -> B -> C) (g : nat -> A)
      (h : nat -> B) (l : list nat) :
  zip_with f (map g l) (map h l) = map (fun i => f (g i) (h i)) l.
Proof.
  induction l as [|x l IH]; simpl; [reflexivity|].
  now rewrite IH.
Qed.

Lemma map_nth_seq (v : list R) :
  v = map (fun i => nth i v 0) (seq 0 (length v)).
Proof.
  induction v as [|a v IH]; simpl; [reflexivity|].
  f_equal. rewrite <- seq_shift, map_map. exact IH.
Qed.

Lemma repeat_map_seq (A : Type) (x : A) (n : nat) :
  repeat x n = map (fun _ => x) (seq 0 n).
Proof.
  generalize 0%nat. induction n as [|n IH]; intros s; simpl; [reflexivity|].
  now rewrite <- IH.
Qed.

Lemma outer_map_seq (u v : list R) :
  outer u v =
  map (fun j => map (fun k => nth j u 0 * nth k v 0) (seq 0 (length v)))
      (seq 0 (length u)).
Proof.
  unfold outer.
  rewrite (map_nth_seq u) at 1. rewrite map_map.
  apply map_ext; intros j.
  rewrite (map_nth_seq v) at 1. now rewrite map_map.
Qed.

End ListFacts.

(** The sum of outer products, entry by entry: entry (j, k) is the inner
    product of column j of the observed rows with column k of the
    reference rows. *)
Lemma weighted_outer_sum_uniform (p q : nat) :
  forall observed reference : list (list R),
    length observed = length reference ->
    Forall (fun r => length r = p) observed ->
    Forall (fun r => length r = q) reference ->
    weighted_outer_sum p q (uniform_weights (length observed)) observed reference
    = map (fun j => map (fun k => dot (col j observed) (col k reference))
                        (seq 0 q))
          (seq 0 p).
Proof.
  induction observed as [|o obs IH]; intros [|c refs] Hlen Ho Hc;
    simpl in Hlen; try discriminate.
  - simpl. unfold zeros. rewrite repeat_map_seq.
    apply map_ext; intros j. now rewrite repeat_map_seq.
  - inversion Ho as [|? ? Hol Ho']; inversion Hc as [|? ? Hcl Hc']; subst.
    simpl. rewrite IH by (auto; lia).
    rewrite outer_map_seq. unfold mscale, madd.
    rewrite map_map, zip_with_map_seq.
    apply map_ext; intros j.
    rewrite map_map, zip_with_map_seq.
    apply map_ext; intros k. ring.
Qed.

(** ** Algebra of 3x3 matrices *)

Ltac destruct_mats :=
  repeat match goal with
         | A : mat3 |- _ => destruct A
         | v : vec3 |- _ => destruct v
         end.

Ltac mat3_ring :=
  intros; destruct_mats;
  unfold mmul, mtr, madd3, mvec, outer3, vdot, I3, mdiag, mzero, det3, trace,
         vscale, vzero in *; simpl in *;
  try (f_equal; ring); try ring.

Section Mat3Algebra.

Lemma mmul_assoc (A B C : mat3) : mmul (mmul A B) C = mmul A (mmul B C).
Proof. mat3_ring. Qed.

Lemma mmul_I3_l (A : mat3) : mmul I3 A = A.
Proof. mat3_ring. Qed.

Lemma mmul_I3_r (A : mat3) : mmul A I3 = A.
Proof. mat3_ring. Qed.

Lemma mtr_mmul (A B : mat3) : mtr (mmul A B) = mmul (mtr B) (mtr A).
Proof. mat3_ring. Qed.

Lemma mtr_mtr (A : mat3) : mtr (mtr A) = A.
Proof. mat3_ring. Qed.

Lemma mtr_I3 : mtr I3 = I3.
Proof. reflexivity. Qed.

Lemma mtr_mdiag (a b c : R) : mtr (mdiag a b c) = mdiag a b c.
Proof. reflexivity. Qed.

Lemma mmul_mdiag (a b c a' b' c' : R) :
  mmul (mdiag a b c) (mdiag a' b' c') = mdiag (a * a') (b * b') (c * c').
Proof. mat3_ring. Qed.

Lemma det3_mmul (A B : mat3) : det3 (mmul A B) = det3 A * det3 B.
Proof. mat3_ring. Qed.



Lemma det3_mdiag (a b c : R) : det3 (mdiag a b c) = a * b * c.
Proof. mat3_ring. Qed.

Lemma mvec_mmul (A B : mat3) (v : vec3) : mvec (mmul A B) v = mvec A (mvec B v).
Proof. mat3_ring. Qed.

Lemma mvec_I3 (v : vec3) : mvec I3 v = v.
Proof. mat3_ring. Qed.

Lemma mvec_vzero (A : mat3) : mvec A vzero = vzero.
Proof. mat3_ring. Qed.

Lemma vdot_mvec (A : mat3) (u v : vec3) :
  vdot (mvec A u) v = vdot u (mvec (mtr A) v).
Proof. mat3_ring. Qed.

Lemma mmul_madd3_r (A B C : mat3) :
  mmul A (madd3 B C) = madd3 (mmul A B) (mmul A C).
Proof. mat3_ring. Qed.

Lemma mmul_mzero_r (A : mat3) : mmul A mzero = mzero.
Proof. mat3_ring. Qed.

Lemma outer3_mvec_l (A : mat3) (u v : vec3) :
  outer3 (mvec A u) v = mmul A (outer3 u v).
Proof. mat3_ring. Qed.

Lemma mtr_madd3 (A B : mat3) : mtr (madd3 A B) = madd3 (mtr A) (mtr B).
Proof. mat3_ring. Qed.

Lemma vdot_madd3 (A B : mat3) (x : vec3) :
  vdot x (mvec (madd3 A B) x) = vdot x (mvec A x) + vdot x (mvec B x).
Proof. mat3_ring. Qed.

Lemma vdot_outer3 (c x : vec3) :
  vdot x (mvec (outer3 c c) x) = vdot c x * vdot c x.
Proof. mat3_ring. Qed.

(** *** Orthogonal matrices *)

Lemma orthogonal3_I3 : orthogonal3 I3.
Proof. split; mat3_ring. Qed.

Lemma orthogonal3_mtr (Q : mat3) : orthogonal3 Q -> orthogonal3 (mtr Q).
Proof. intros [H1 H2]. split; rewrite mtr_mtr; assumption. Qed.

Lemma orthogonal3_mmul (P Q : mat3) :
  orthogonal3 P -> orthogonal3 Q -> orthogonal3 (mmul P Q).
Proof.
  intros [P1 P2] [Q1 Q2]. split; rewrite mtr_mmul.
  - rewrite mmul_assoc, <- (mmul_assoc (mtr P)), P1, mmul_I3_l. exact Q1.
  - rewrite mmul_assoc, <- (mmul_assoc Q), Q2, mmul_I3_l. exact P2.
Qed.


End Mat3Algebra.

(** ** Uniqueness of the polar factor *)

Section Polar.

Lemma sq_commute (n a b : R) :
  0 <= a -> 0 <= b -> n * (b * b) = (a * a) * n -> n * b = a * n.
Proof.
  intros Ha Hb H.
  destruct (Req_dec n 0) as [-> | Hn]; [ring|].
  assert (E : b * b = a * a).
  { apply (Rmult_eq_reg_l n); [lra | assumption]. }
  assert (F : (b - a) * (b + a) = 0) by (ring_simplify; lra).
  apply Rmult_integral in F. destruct F as [F | F].
  - replace b with a by lra. ring.
  - assert (a = 0) by lra. assert (b = 0) by lra. subst. ring.
Qed.

Lemma wsum_nonneg (x y z s1 s2 s3 : R) :
  0 <= s1 -> 0 <= s2 -> 0 <= s3 ->
  0 <= s1 * (x * x) + s2 * (y * y) + s3 * (z * z).
Proof.
  intros H1 H2 H3.
  pose proof (Rle_0_sqr x) as X. pose proof (Rle_0_sqr y) as Y.
  pose proof (Rle_0_sqr z) as Z. unfold Rsqr in *.
  repeat apply Rplus_le_le_0_compat; apply Rmult_le_pos; assumption.
Qed.

(** A symmetric positive definite matrix whose square is diag(s)^2, with
    s non-negative, is diag(s). *)
Lemma psd_sqrt_unique (N : mat3) (s1 s2 s3 : R) :
  mtr N = N -> pos_semidef N -> pos_def N ->
  0 <= s1 -> 0 <= s2 -> 0 <= s3 ->
  mmul N N = mdiag (s1 * s1) (s2 * s2) (s3 * s3) ->
  N = mdiag s1 s2 s3.
Proof.
  intros Hsym Hpsd Hpd H1 H2 H3 Hsq.
  assert (Hc : mmul N (mdiag (s1 * s1) (s2 * s2) (s3 * s3))
               = mmul (mdiag (s1 * s1) (s2 * s2) (s3 * s3)) N).
  { rewrite <- Hsq. symmetry. apply mmul_assoc. }
  pose proof (Hpd (V3 (m11 N - s1) (m21 N) (m31 N))) as P1.
  pose proof (Hpd (V3 (m12 N) (m22 N - s2) (m32 N))) as P2.
  pose proof (Hpd (V3 (m13 N) (m23 N) (m33 N - s3))) as P3.
  pose proof (Hpsd (V3 (m11 N - s1) (m21 N) (m31 N))) as Q1.
  pose proof (Hpsd (V3 (m12 N) (m22 N - s2) (m32 N))) as Q2.
  pose proof (Hpsd (V3 (m13 N) (m23 N) (m33 N - s3))) as Q3.
  clear Hpd Hpsd.
  destruct N as [a b c d e f g h i].
  unfold mmul, mtr, mdiag, mvec, vdot, vzero in *; simpl in *.
  injection Hsym as Hdb Hgc Hbd Hhf Hcg Hfh.
  injection Hsq as S11 S12 S13 S21 S22 S23 S31 S32 S33.
  injection Hc as C11 C12 C13 C21 C22 C23 C31 C32 C33.
  assert (K12 : b * s2 = s1 * b) by (apply sq_commute; lra).
  assert (K13 : c * s3 = s1 * c) by (apply sq_commute; lra).
  assert (K23 : f * s3 = s2 * f) by (apply sq_commute; lra).
  subst d g h.
  assert (Z1 : V3 (a - s1) b c = V3 0 0 0).
  { apply P1.
    pose proof (wsum_nonneg (a - s1) b c H1 H2 H3) as W.
    assert (T1 : a * (a - s1) + b * b + c * c = - s1 * (a - s1)) by lra.
    assert (T2 : b * (a - s1) + e * b + f * c = - s2 * b) by lra.
    assert (T3 : c * (a - s1) + f * b + i * c = - s3 * c) by lra.
    rewrite T1, T2, T3 in *. lra. }
  assert (Z2 : V3 b (e - s2) f = V3 0 0 0).
  { apply P2.
    pose proof (wsum_nonneg b (e - s2) f H1 H2 H3) as W.
    assert (T1 : a * b + b * (e - s2) + c * f = - s1 * b) by lra.
    assert (T2 : b * b + e * (e - s2) + f * f = - s2 * (e - s2)) by lra.
    assert (T3 : c * b + f * (e - s2) + i * f = - s3 * f) by lra.
    rewrite T1, T2, T3 in *. lra. }
  assert (Z3 : V3 c f (i - s3) = V3 0 0 0).
  { apply P3.
    pose proof (wsum_nonneg c f (i - s3) H1 H2 H3) as W.
    assert (T1 : a * c + b * f + c * (i - s3) = - s1 * c) by lra.
    assert (T2 : b * c + e * f + f * (i - s3) = - s2 * f) by lra.
    assert (T3 : c * c + f * f + i * (i - s3) = - s3 * (i - s3)) by lra.
    rewrite T1, T2, T3 in *. lra. }
  injection Z1 as ? ? ?. injection Z2 as ? ? ?. injection Z3 as ? ? ?.
  f_equal; lra.
Qed.

Lemma pos_def_mdiag_pos (s1 s2 s3 : R) :
  0 <= s1 -> 0 <= s2 -> 0 <= s3 -> pos_def (mdiag s1 s2 s3) ->
  0 < s1 /\ 0 < s2 /\ 0 < s3.
Proof.
  intros H1 H2 H3 Hpd.
  pose proof (Hpd (V3 1 0 0)) as P1.
  pose proof (Hpd (V3 0 1 0)) as P2.
  pose proof (Hpd (V3 0 0 1)) as P3.
  unfold vdot, mvec, mdiag, vzero in *; simpl in *.
  repeat split.
  - destruct (Req_dec s1 0) as [E | E]; [|lra].
    assert (A : V3 1 0 0 = V3 0 0 0) by (apply P1; rewrite E; ring).
    injection A as A. lra.
  - destruct (Req_dec s2 0) as [E | E]; [|lra].
    assert (A : V3 0 1 0 = V3 0 0 0) by (apply P2; rewrite E; ring).
    injection A as A. lra.
  - destruct (Req_dec s3 0) as [E | E]; [|lra].
    assert (A : V3 0 0 1 = V3 0 0 0) by (apply P3; rewrite E; ring).
    injection A as A. lra.
Qed.

(** Conjugating by an orthogonal matrix keeps symmetry and definiteness. *)
Lemma conj_quadratic (A M : mat3) (x : vec3) :
  vdot x (mvec (mmul (mmul A M) (mtr A)) x)
  = vdot (mvec (mtr A) x) (mvec M (mvec (mtr A) x)).
Proof. mat3_ring. Qed.

Lemma conj_pos_semidef (A M : mat3) :
  pos_semidef M -> pos_semidef (mmul (mmul A M) (mtr A)).
Proof. intros H x. rewrite conj_quadratic. apply H. Qed.

Lemma conj_pos_def (A M : mat3) :
  orthogonal3 A -> pos_def M -> pos_def (mmul (mmul A M) (mtr A)).
Proof.
  intros [_ HA] H x Hx. rewrite conj_quadratic in Hx.
  apply H in Hx.
  rewrite <- (mvec_I3 x), <- HA, mvec_mmul, Hx. apply mvec_vzero.
Qed.

Lemma conj_symmetric (A M : mat3) :
  mtr M = M -> mtr (mmul (mmul A M) (mtr A)) = mmul (mmul A M) (mtr A).
Proof.
  intros H. rewrite !mtr_mmul, mtr_mtr, H. symmetry. apply mmul_assoc.
Qed.

(** If G is orthogonal... in fact any G: G.D = D with D invertible diagonal
    forces G = I. *)
Lemma mmul_mdiag_cancel (G : mat3) (s1 s2 s3 : R) :
  0 < s1 -> 0 < s2 -> 0 < s3 ->
  mmul G (mdiag s1 s2 s3) = mdiag s1 s2 s3 -> G = I3.
Proof.
  intros H1 H2 H3 H. destruct G as [a b c d e f g h i].
  unfold mmul, mdiag, I3 in *; simpl in *.
  injection H as E11 E12 E13 E21 E22 E23 E31 E32 E33.
  f_equal; nra.
Qed.

(** The polar factor is unique: when R0.M = U.diag(s).Vt with R0, U, Vt
    orthogonal, s non-negative and M symmetric positive definite, then
    U.Vt = R0, that is V.Ut = R0^T. *)
Lemma polar_unique (u vt r0 M : mat3) (s1 s2 s3 : R) :
  orthogonal3 u -> orthogonal3 vt -> orthogonal3 r0 ->
  mtr M = M -> pos_semidef M -> pos_def M ->
  0 <= s1 -> 0 <= s2 -> 0 <= s3 ->
  mmul r0 M = mmul (mmul u (mdiag s1 s2 s3)) vt ->
  mmul (mtr vt) (mtr u) = mtr r0.
Proof.
  intros Hu Hvt Hr Hsym Hpsd Hpd H1 H2 H3 HM.
  set (D := mdiag s1 s2 s3) in *.
  set (G := mmul (mmul vt (mtr r0)) u).
  set (N := mmul (mmul vt M) (mtr vt)).
  assert (HG : orthogonal3 G).
  { apply orthogonal3_mmul; [apply orthogonal3_mmul|]; auto.
    now apply orthogonal3_mtr. }
  assert (HMeq : M = mmul (mtr r0) (mmul (mmul u D) vt)).
  { rewrite <- HM, <- mmul_assoc. destruct Hr as [Hr _].
    now rewrite Hr, mmul_I3_l. }
  assert (HN : N = mmul G D).
  { unfold N, G. rewrite HMeq at 1. rewrite !mmul_assoc.
    destruct Hvt as [_ Hvt]. now rewrite Hvt, mmul_I3_r. }
  assert (HNsym : mtr N = N) by (apply conj_symmetric; assumption).
  assert (HNsq : mmul N N = mdiag (s1 * s1) (s2 * s2) (s3 * s3)).
  { rewrite <- HNsym at 1. rewrite HN, mtr_mmul.
    rewrite mmul_assoc, <- (mmul_assoc (mtr G)).
    destruct HG as [HG _]. rewrite HG, mmul_I3_l.
    unfold D. rewrite mtr_mdiag. apply mmul_mdiag. }
  assert (HND : N = D).
  { apply psd_sqrt_unique; auto.
    - now apply conj_pos_semidef.
    - now apply conj_pos_def. }
  assert (Hpos : 0 < s1 /\ 0 < s2 /\ 0 < s3).
  { apply pos_def_mdiag_pos; auto. fold D. rewrite <- HND.
    now apply conj_pos_def. }
  destruct Hpos as (P1 & P2 & P3).
  assert (HGI : G = I3).
  { apply (mmul_mdiag_cancel (G:=G) P1 P2 P3). fold D. now rewrite <- HN. }
  unfold G in HGI.
  destruct Hvt as [Hvt1 Hvt2]. destruct Hu as [Hu1 Hu2].
  transitivity (mmul (mtr vt) (mmul (mmul (mmul vt (mtr r0)) u) (mtr u))).
  - now rewrite HGI, mmul_I3_l.
  - rewrite !mmul_assoc, Hu2, mmul_I3_r, <- mmul_assoc, Hvt1.
    apply mmul_I3_l.
Qed.


End Polar.

(** ** The cross-covariance of 3D correspondences *)

Section Covariance.

Lemma cov3_rotated (r0 : mat3) (cat : list vec3) :
  cov3 (map (mvec r0) cat) cat = mmul r0 (cov3 cat cat).
Proof.
  induction cat as [|c cat IH]; simpl.
  - symmetry. apply mmul_mzero_r.
  - now rewrite IH, mmul_madd3_r, outer3_mvec_l.
Qed.

Lemma cov3_self_symmetric (cat : list vec3) : mtr (cov3 cat cat) = cov3 cat cat.
Proof.
  induction cat as [|c cat IH]; simpl; [reflexivity|].
  rewrite mtr_madd3, IH. f_equal. mat3_ring.
Qed.

Lemma cov3_self_pos_semidef (cat : list vec3) : pos_semidef (cov3 cat cat).
Proof.
  intros x. induction cat as [|c cat IH]; simpl.
  - destruct x; unfold vdot, mvec, mzero; simpl. lra.
  - rewrite vdot_madd3, vdot_outer3.
    pose proof (Rle_0_sqr (vdot c x)) as S. unfold Rsqr in S. lra.
Qed.

Lemma cov3_self_kernel (cat : list vec3) (x : vec3) :
  vdot x (mvec (cov3 cat cat) x) = 0 ->
  forall c, In c cat -> vdot c x = 0.
Proof.
  induction cat as [|c0 cat IH]; simpl; intros H c Hin; [contradiction|].
  rewrite vdot_madd3, vdot_outer3 in H.
  pose proof (cov3_self_pos_semidef cat x) as P.
  pose proof (Rle_0_sqr (vdot c0 x)) as S. unfold Rsqr in S.
  destruct Hin as [<- | Hin].
  - assert (E : vdot c0 x * vdot c0 x = 0) by lra.
    apply Rmult_integral in E. now destruct E.
  - apply IH; [lra | assumption].
Qed.

Lemma cov3_self_pos_def (cat : list vec3) :
  spanning cat -> pos_def (cov3 cat cat).
Proof.
  intros Hs x Hx. apply Hs. now apply cov3_self_kernel.
Qed.

End Covariance.

(** ** From arrays to 3x3 matrices *)

Section Bridge.

Lemma Ok_inj (A : Type) (a b : A) : Ok a = Ok b -> a = b.
Proof. intros H. now injection H. Qed.

Lemma arr33_inj (A B : mat3) : arr33 A = arr33 B -> A = B.
Proof.
  destruct A, B. unfold arr33; simpl. intros H. now injection H as -> -> -> -> -> -> -> -> ->.
Qed.

Lemma transpose_arr33 (A : mat3) : transpose (arr33 A) = arr33 (mtr A).
Proof. reflexivity. Qed.

Lemma matmul_arr33 (A B : mat3) :
  matmul (arr33 A) (arr33 B) = Ok (arr33 (mmul A B)).
Proof.
  unfold matmul, arr33, mmul; simpl.
  now rewrite !Rplus_0_r, <- !Rplus_assoc.
Qed.

Lemma eye_3 : eye 3 = arr33 I3.
Proof. reflexivity. Qed.

Lemma diag_3 (s1 s2 s3 : R) : diag 3 3 [s1; s2; s3] = arr33 (mdiag s1 s2 s3).
Proof. reflexivity. Qed.

Lemma from_matrix_arr33 (A : mat3) :
  Rotation.from_matrix (arr33 A) = Ok (Rotation.mk A).
Proof. destruct A. reflexivity. Qed.

Lemma wf_shape33 (X : ndarray) :
  wf X -> shape X = (3%nat, 3%nat) -> exists A : mat3, X = arr33 A.
Proof.
  destruct X as [n m rows]. unfold wf, shape; simpl.
  intros [Hlen Hrows] Hs. injection Hs as -> ->.
  destruct rows as [|r1 [|r2 [|r3 [|? ?]]]]; try discriminate.
  inversion Hrows as [|? ? L1 Hrows1]; subst.
  inversion Hrows1 as [|? ? L2 Hrows2]; subst.
  inversion Hrows2 as [|? ? L3 _]; subst.
  destruct r1 as [|a [|b [|c [|? ?]]]]; try discriminate.
  destruct r2 as [|d [|e [|f [|? ?]]]]; try discriminate.
  destruct r3 as [|g [|h [|i [|? ?]]]]; try discriminate.
  now exists (M3 a b c d e f g h i).
Qed.

Lemma orthogonal_arr33 (A : mat3) : orthogonal (arr33 A) -> orthogonal3 A.
Proof.
  unfold orthogonal. rewrite transpose_arr33, !matmul_arr33. simpl.
  rewrite eye_3. intros [H1 H2].
  apply Ok_inj, arr33_inj in H1. apply Ok_inj, arr33_inj in H2.
  now split.
Qed.

Lemma orthogonal3_arr33 (A : mat3) : orthogonal3 A -> orthogonal (arr33 A).
Proof.
  intros [H1 H2]. unfold orthogonal.
  rewrite transpose_arr33, !matmul_arr33, H1, H2. now split.
Qed.

Lemma dot_col_rows3 (j k : nat) (observed reference : list vec3) :
  (j < 3)%nat -> (k < 3)%nat ->
  dot (col j (map row3 observed)) (col k (map row3 reference))
  = nth k (nth j (data (arr33 (cov3 observed reference))) []) 0.
Proof.
  intros Hj Hk. revert reference.
  induction observed as [|o obs IH]; intros [|c refs].
  - destruct j as [|[|[|?]]]; destruct k as [|[|[|?]]]; simpl; (reflexivity || lia).
  - destruct j as [|[|[|?]]]; destruct k as [|[|[|?]]]; simpl; (reflexivity || lia).
  - destruct j as [|[|[|?]]]; destruct k as [|[|[|?]]]; simpl; (reflexivity || lia).
  - change (dot (col j (map row3 (o :: obs))) (col k (map row3 (c :: refs))))
      with (nth j (row3 o) 0 * nth k (row3 c) 0
            + dot (col j (map row3 obs)) (col k (map row3 refs))).
    rewrite IH.
    destruct j as [|[|[|?]]]; destruct k as [|[|[|?]]]; simpl; (reflexivity || lia).
Qed.

(** The matrix H of [solve_attitude] on two (n,3) arrays. *)
Lemma matmul_rows3 (observed reference : list vec3) :
  length observed = length reference ->
  matmul (transpose (rows3 observed)) (rows3 reference)
  = Ok (arr33 (cov3 observed reference)).
Proof.
  intros Hlen. unfold matmul, rows3, array, transpose; simpl.
  rewrite !length_map, Hlen, Nat.eqb_refl.
  rewrite !dot_col_rows3 by lia.
  destruct (cov3 observed reference). reflexivity.
Qed.

Lemma svd_spec_3 (h : mat3) (usv : ndarray * list R * ndarray) :
  svd_spec (arr33 h) usv ->
  exists (u vt : mat3) (s1 s2 s3 : R),
    usv = (arr33 u, [s1; s2; s3], arr33 vt) /\
    orthogonal3 u /\ orthogonal3 vt /\
    0 <= s1 /\ 0 <= s2 /\ 0 <= s3 /\
    h = mmul (mmul u (mdiag s1 s2 s3)) vt.
Proof.
  destruct usv as [[U sg] Vt]. unfold svd_spec.
  intros (WU & WVt & SU & SVt & LS & OU & OVt & NN & _ & HR).
  simpl in SU, SVt, LS.
  destruct (wf_shape33 WU SU) as [u ->].
  destruct (wf_shape33 WVt SVt) as [vt ->].
  destruct sg as [|s1 [|s2 [|s3 [|? ?]]]]; try discriminate.
  exists u, vt, s1, s2, s3.
  apply orthogonal_arr33 in OU. apply orthogonal_arr33 in OVt.
  inversion NN as [|? ? N1 NN1]; subst.
  inversion NN1 as [|? ? N2 NN2]; subst.
  inversion NN2 as [|? ? N3 _]; subst.
  change (nrows (arr33 h)) with 3%nat in HR.
  change (ncols (arr33 h)) with 3%nat in HR.
  rewrite diag_3, matmul_arr33 in HR. unfold bind in HR.
  rewrite matmul_arr33 in HR. apply Ok_inj, arr33_inj in HR.
  symmetry in HR.
  split; [reflexivity|]. split; [exact OU|]. split; [exact OVt|].
  repeat split; auto.
Qed.

End Bridge.

(** ** The solver on (n,3) arrays *)

Section SolverFacts.

Variable svd : ndarray -> ndarray * list R * ndarray.

(** Every well-formed (n,3) array is [rows3] of its rows. *)
Lemma rows3_surjective (X : ndarray) :
  wf X -> ncols X = 3%nat -> X = rows3 (map vec3_of_row (data X)).
Proof.
  destruct X as [n m rows]. unfold wf, rows3, array; simpl.
  intros [Hlen Hrows] ->. rewrite !length_map, Hlen. f_equal.
  clear Hlen. induction Hrows as [|r rows Hr _ IH]; simpl; [reflexivity|].
  rewrite <- IH. f_equal.
  destruct r as [|a [|b [|c [|? ?]]]]; try discriminate. reflexivity.
Qed.

(** What [solve_attitude] returns on two (n,3) arrays: V.Ut of the SVD
    factors of H, handed to [Rotation.from_matrix]. *)
Lemma solve_attitude_3d (observed catalog : list vec3) :
  length observed = length catalog ->
  svd_ok svd (rows3 observed) (rows3 catalog) ->
  exists (u vt : mat3) (s1 s2 s3 : R),
    orthogonal3 u /\ orthogonal3 vt /\
    0 <= s1 /\ 0 <= s2 /\ 0 <= s3 /\
    cov3 observed catalog = mmul (mmul u (mdiag s1 s2 s3)) vt /\
    solve_attitude svd (rows3 observed) (rows3 catalog)
    = Ok (Rotation.mk (mmul (mtr vt) (mtr u))).
Proof.
  intros Hlen Hsvd.
  pose proof (matmul_rows3 observed catalog Hlen) as HH.
  specialize (Hsvd _ HH).
  apply svd_spec_3 in Hsvd
    as (u & vt & s1 & s2 & s3 & E & Ou & Ovt & P1 & P2 & P3 & Hh).
  exists u, vt, s1, s2, s3. repeat (split; [assumption|]).
  unfold solve_attitude. rewrite HH. unfold bind at 1. rewrite E.
  rewrite !transpose_arr33, matmul_arr33. unfold bind.
  apply from_matrix_arr33.
Qed.

(** Noiseless input: the solver returns the inverse of the rotation that
    produced the observations. *)
Lemma solve_attitude_noiseless (r0 : mat3) (catalog : list vec3) :
  orthogonal3 r0 -> spanning catalog ->
  svd_ok svd (rows3 (map (mvec r0) catalog)) (rows3 catalog) ->
  solve_attitude svd (rows3 (map (mvec r0) catalog)) (rows3 catalog)
  = Ok (Rotation.mk (mtr r0)).
Proof.
  intros Hr Hspan Hsvd.
  destruct (@solve_attitude_3d (map (mvec r0) catalog) catalog)
    as (u & vt & s1 & s2 & s3 & Ou & Ovt & P1 & P2 & P3 & Hh & Hs);
    [apply length_map | assumption |].
  rewrite Hs. do 2 f_equal.
  rewrite cov3_rotated in Hh.
  apply (polar_unique (M:=cov3 catalog catalog) (s1:=s1) (s2:=s2) (s3:=s3));
    auto using cov3_self_symmetric, cov3_self_pos_semidef, cov3_self_pos_def.
Qed.

End SolverFacts.

(** ** Fixed-factor SVD routines used in the concrete scenarios *)

Ltac mat3_calc :=
  cbv [mirror_observed mirror_catalog axes_catalog quarter_observed
       zero_observed same_catalog e1 e2 e3 vzero quarter_turn
       cov3 map madd3 outer3 mzero mmul mdiag I3 mtr mvec det3 trace
       vx vy vz m11 m12 m13 m21 m22 m23 m31 m32 m33];
  try (f_equal; ring); try ring.

Section ConcreteSvd.

Lemma wf_arr33 (A : mat3) : wf (arr33 A).
Proof. split; [reflexivity | repeat constructor]. Qed.

Lemma const_svd_ok (u vt : mat3) (s1 s2 s3 : R) (observed catalog : list vec3) :
  length observed = length catalog ->
  orthogonal3 u -> orthogonal3 vt ->
  0 <= s3 -> s3 <= s2 -> s2 <= s1 ->
  cov3 observed catalog = mmul (mmul u (mdiag s1 s2 s3)) vt ->
  svd_ok (const_svd u [s1; s2; s3] vt) (rows3 observed) (rows3 catalog).
Proof.
  intros Hlen Hu Hvt H3 H2 H1 Hh H HH.
  rewrite (matmul_rows3 observed catalog Hlen) in HH.
  apply Ok_inj in HH. subst H.
  unfold const_svd, svd_spec.
  split; [apply wf_arr33|]. split; [apply wf_arr33|].
  split; [reflexivity|]. split; [reflexivity|]. split; [reflexivity|].
  split; [apply orthogonal3_arr33; assumption|].
  split; [apply orthogonal3_arr33; assumption|].
  split; [repeat (apply Forall_cons; [lra|]); apply Forall_nil|].
  split; [simpl; lra|].
  change (nrows (arr33 (cov3 observed catalog))) with 3%nat.
  change (ncols (arr33 (cov3 observed catalog))) with 3%nat.
  rewrite diag_3, matmul_arr33. unfold bind. rewrite matmul_arr33.
  now rewrite Hh.
Qed.


Lemma orthogonal3_quarter_turn : orthogonal3 quarter_turn.
Proof. split; unfold mmul, mtr, quarter_turn, I3; simpl; f_equal; ring. Qed.

Lemma proper_quarter_turn : proper_rotation quarter_turn.
Proof.
  split; [apply orthogonal3_quarter_turn|].
  unfold det3, quarter_turn; simpl. ring.
Qed.

Lemma spanning_axes : spanning [e1; e2; e3].
Proof.
  intros [x y z] H.
  pose proof (H e1 (or_introl eq_refl)) as H1.
  pose proof (H e2 (or_intror (or_introl eq_refl))) as H2.
  pose proof (H e3 (or_intror (or_intror (or_introl eq_refl)))) as H3.
  unfold vdot, e1, e2, e3, vzero in *; simpl in *.
  f_equal; lra.
Qed.

Lemma not_collinear_axes : ~ collinear [e1; e2; e3].
Proof.
  intros [[dx dy dz] Hd].
  destruct (Hd e1 (or_introl eq_refl)) as [k1 E1].
  destruct (Hd e2 (or_intror (or_introl eq_refl))) as [k2 E2].
  unfold vscale, e1, e2 in *; simpl in *.
  injection E1 as A1 A2 A3. injection E2 as B1 B2 B3. nra.
Qed.

Lemma unit_axes : Forall unit_vector [e1; e2; e3].
Proof.
  repeat (apply Forall_cons; [unfold unit_vector, vdot; simpl; ring|]).
  apply Forall_nil.
Qed.


Lemma quarter_svd_ok :
  svd_ok quarter_svd (rows3 quarter_observed) (rows3 axes_catalog).
Proof.
  apply const_svd_ok; try lra; try reflexivity.
  - apply orthogonal3_quarter_turn.
  - apply orthogonal3_I3.
  - mat3_calc.
Qed.

Lemma identity_svd_ok :
  svd_ok identity_svd (rows3 axes_catalog) (rows3 axes_catalog).
Proof.
  apply const_svd_ok; try lra; try reflexivity.
  - apply orthogonal3_I3.
  - apply orthogonal3_I3.
  - mat3_calc.
Qed.



End ConcreteSvd.

(** ** Properties of the returned rotation *)



(** The same on arrays of any shape: whenever [solve_attitude] returns a
    rotation, its matrix is orthogonal. *)
Lemma solve_attitude_orthogonal_any_shape
      (svd : ndarray -> ndarray * list R * ndarray)
      (observed catalog : ndarray) (rot : Rotation.t) :
  svd_ok svd observed catalog ->
  solve_attitude svd observed catalog = Ok rot ->
  orthogonal3 (Rotation.matrix rot).
Proof.
  intros Hsvd. unfold solve_attitude.
  destruct (matmul (transpose observed) catalog) as [H | e] eqn:EH;
    [|discriminate].
  specialize (Hsvd H EH). unfold bind at 1.
  destruct (svd H) as [[U sg] Vt].
  destruct Hsvd as (WU & WVt & SU & SVt & _ & OU & OVt & _).
  destruct (matmul (transpose Vt) (transpose U)) as [R_est | e] eqn:ER;
    [|discriminate].
  unfold bind. intros Hrot.
  assert (S3 : shape R_est = (3%nat, 3%nat)).
  { revert Hrot. unfold Rotation.from_matrix.
    destruct (shape R_est) as [[|[|[|[|n]]]] [|[|[|[|m]]]]]; try discriminate.
    reflexivity. }
  assert (SR : shape R_est = (ncols Vt, nrows U)).
  { revert ER. unfold matmul. destruct (Nat.eqb _ _); [|discriminate].
    intros X. apply Ok_inj in X. now subst R_est. }
  rewrite SR in S3. injection S3 as V3 U3.
  unfold shape in SU, SVt. injection SU as U1 U2. injection SVt as V1 V2.
  assert (SU' : shape U = (3%nat, 3%nat)) by (unfold shape; congruence).
  assert (SVt' : shape Vt = (3%nat, 3%nat)) by (unfold shape; congruence).
  destruct (wf_shape33 WU SU') as [u ->].
  destruct (wf_shape33 WVt SVt') as [vt ->].
  rewrite !transpose_arr33, matmul_arr33 in ER. apply Ok_inj in ER.
  subst R_est. rewrite from_matrix_arr33 in Hrot. apply Ok_inj in Hrot.
  subst rot. simpl.
  apply orthogonal_arr33 in OU. apply orthogonal_arr33 in OVt.
  apply (orthogonal3_mmul (orthogonal3_mtr OVt) (orthogonal3_mtr OU)).
Qed.





(** ** Noiseless input *)

Lemma angle_between_self (A : mat3) : orthogonal3 A -> angle_between A A = 0.
Proof.
  intros [H _]. unfold angle_between. rewrite H.
  replace ((trace I3 - 1) / 2) with 1 by (unfold trace, I3; simpl; lra).
  apply acos_1.
Qed.

Lemma angular_tolerance_pos : 0 < angular_tolerance.
Proof. unfold angular_tolerance. lra. Qed.

Lemma vec3_of_row3 (v : vec3) : vec3_of_row (row3 v) = v.
Proof. now destruct v. Qed.

Lemma apply_rows3 (rot : Rotation.t) (vs : list vec3) :
  Rotation.apply rot (rows3 vs)
  = Ok (rows3 (map (mvec (Rotation.matrix rot)) vs)).
Proof.
  unfold Rotation.apply, rows3, array; simpl.
  rewrite !length_map, !map_map. reflexivity.
Qed.

(** C8.  For noiseless input - every observed vector is a proper rotation
    R0 applied to its catalog vector, the catalog vectors spanning the
    space - [solve_attitude] returns the inverse rotation R0^T: the
    returned rotation maps each observed vector back onto its catalog
    vector. *)
Theorem solve_attitude_returns_inverse
        (svd : ndarray -> ndarray * list R * ndarray)
        (r0 : mat3) (catalog : list vec3) :
  proper_rotation r0 -> spanning catalog ->
  svd_ok svd (rows3 (map (mvec r0) catalog)) (rows3 catalog) ->
  exists rot : Rotation.t,
    solve_attitude svd (rows3 (map (mvec r0) catalog)) (rows3 catalog) = Ok rot /\
    Rotation.matrix rot = mtr r0 /\
    mmul (Rotation.matrix rot) r0 = I3 /\
    Rotation.apply rot (rows3 (map (mvec r0) catalog)) = Ok (rows3 catalog).
Proof.
  intros [Hr _] Hspan Hsvd.
  exists (Rotation.mk (mtr r0)).
  split; [now apply solve_attitude_noiseless|].
  split; [reflexivity|]. simpl.
  destruct Hr as [Hr1 Hr2]. split; [exact Hr1|].
  rewrite apply_rows3. simpl. do 2 f_equal.
  rewrite map_map. rewrite <- (map_id catalog) at 2.
  apply map_ext. intros c. now rewrite <- mvec_mmul, Hr1, mvec_I3.
Qed.

Lemma solve_attitude_returns_inverse_witness :
  exists rot : Rotation.t,
    solve_attitude quarter_svd (rows3 (map (mvec quarter_turn) axes_catalog))
                   (rows3 axes_catalog) = Ok rot /\
    Rotation.matrix rot = mtr quarter_turn /\
    mmul (Rotation.matrix rot) quarter_turn = I3 /\
    Rotation.apply rot (rows3 (map (mvec quarter_turn) axes_catalog))
    = Ok (rows3 axes_catalog).
Proof.
  apply (@solve_attitude_returns_inverse quarter_svd quarter_turn axes_catalog).
  - exact proper_quarter_turn.
  - exact spanning_axes.
  - exact quarter_svd_ok.
Defined.

(** C2, as the code has it.  For any proper rotation R0 and any catalog of
    vectors spanning 3-space, if the observed vectors are R0 applied to the
    catalog vectors, the rotation returned by [solve_attitude] equals the
    inverse R0^T within the angular tolerance (their angular distance is
    zero). *)
Theorem solve_attitude_recovers_inverse_within_tolerance
        (svd : ndarray -> ndarray * list R * ndarray)
        (r0 : mat3) (catalog : list vec3) :
  proper_rotation r0 -> spanning catalog ->
  svd_ok svd (rows3 (map (mvec r0) catalog)) (rows3 catalog) ->
  exists rot : Rotation.t,
    solve_attitude svd (rows3 (map (mvec r0) catalog)) (rows3 catalog) = Ok rot /\
    angle_between (Rotation.matrix rot) (mtr r0) < angular_tolerance.
Proof.
  intros [Hr _] Hspan Hsvd.
  exists (Rotation.mk (mtr r0)).
  split; [now apply solve_attitude_noiseless|]. simpl.
  rewrite angle_between_self by now apply orthogonal3_mtr.
  apply angular_tolerance_pos.
Qed.

Lemma solve_attitude_recovers_inverse_within_tolerance_witness :
  exists rot : Rotation.t,
    solve_attitude quarter_svd (rows3 (map (mvec quarter_turn) axes_catalog))
                   (rows3 axes_catalog) = Ok rot /\
    angle_between (Rotation.matrix rot) (mtr quarter_turn) < angular_tolerance.
Proof.
  apply (@solve_attitude_recovers_inverse_within_tolerance
           quarter_svd quarter_turn axes_catalog).
  - exact proper_quarter_turn.
  - exact spanning_axes.
  - exact quarter_svd_ok.
Defined.

(** C2, as the spec states it, fails for a quarter turn about z applied to
    the three axes: the returned rotation is the inverse quarter turn, at an
    angular distance of pi from R0. *)
Lemma quarter_turn_counterexample :
  proper_rotation quarter_turn /\
  valid_correspondences quarter_observed axes_catalog /\
  quarter_observed = map (mvec quarter_turn) axes_catalog /\
  svd_ok quarter_svd (rows3 quarter_observed) (rows3 axes_catalog) /\
  solve_attitude quarter_svd (rows3 quarter_observed) (rows3 axes_catalog)
  = Ok (Rotation.mk (mtr quarter_turn)) /\
  angle_between (mtr quarter_turn) quarter_turn = PI /\
  ~ angle_between (mtr quarter_turn) quarter_turn < angular_tolerance.
Proof.
  assert (A : angle_between (mtr quarter_turn) quarter_turn = PI).
  { unfold angle_between. rewrite mtr_mtr.
    replace ((trace (mmul quarter_turn quarter_turn) - 1) / 2) with (Ropp 1)
      by (cbv [trace mmul quarter_turn m11 m12 m13 m21 m22 m23 m31 m32 m33]; lra).
    rewrite acos_opp, acos_1. ring. }
  split; [exact proper_quarter_turn|].
  split; [|split; [reflexivity|split; [exact quarter_svd_ok|split; [|split; [exact A|]]]]].
  - split; [reflexivity|]. split; [simpl; lia|].
    split; [|split; [exact unit_axes | exact not_collinear_axes]].
    repeat (apply Forall_cons;
            [unfold unit_vector, vdot, quarter_turn; simpl; ring|]).
    apply Forall_nil.
  - apply solve_attitude_noiseless.
    + exact orthogonal3_quarter_turn.
    + exact spanning_axes.
    + exact quarter_svd_ok.
  - rewrite A. unfold angular_tolerance. pose proof PI2_1. lra.
Qed.

(** ** Identity input *)

Lemma clamp_one : clamp 1 (-1) 1 = 1.
Proof.
  unfold clamp. rewrite Rmax_left by lra. apply Rmin_left. lra.
Qed.

(** C6.  For every correspondence set in which each observed vector equals
    its reference vector, the unit vectors spanning the space, the rotation
    returned by [solve_attitude] is the identity matrix and every angular
    residual is 0. *)
Theorem solve_attitude_identity
        (svd : ndarray -> ndarray * list R * ndarray)
        (catalog : list vec3) :
  spanning catalog -> Forall unit_vector catalog ->
  svd_ok svd (rows3 catalog) (rows3 catalog) ->
  exists rot : Rotation.t,
    solve_attitude svd (rows3 catalog) (rows3 catalog) = Ok rot /\
    Rotation.matrix rot = I3 /\
    forall c, In c catalog -> angular_residual (Rotation.matrix rot) c c = 0.
Proof.
  intros Hspan Hunit Hsvd.
  assert (E : map (mvec I3) catalog = catalog).
  { rewrite <- (map_id catalog) at 2. apply map_ext, mvec_I3. }
  pose proof (@solve_attitude_noiseless svd I3 catalog orthogonal3_I3 Hspan) as S.
  rewrite E in S. specialize (S Hsvd). rewrite mtr_I3 in S.
  exists (Rotation.mk I3). split; [exact S|]. split; [reflexivity|].
  intros c Hc. simpl. unfold angular_residual. rewrite mvec_I3.
  rewrite Forall_forall in Hunit. rewrite (Hunit c Hc), clamp_one.
  apply acos_1.
Qed.

Lemma solve_attitude_identity_witness :
  exists rot : Rotation.t,
    solve_attitude identity_svd (rows3 axes_catalog) (rows3 axes_catalog) = Ok rot /\
    Rotation.matrix rot = I3 /\
    forall c, In c axes_catalog -> angular_residual (Rotation.matrix rot) c c = 0.
Proof.
  apply (@solve_attitude_identity identity_svd axes_catalog).
  - exact spanning_axes.
  - exact unit_axes.
  - exact identity_svd_ok.
Defined.

(** ** No input validation *)








(** ** Unit vectors *)

Section UnitVectors.

Lemma dot_self_nonneg (v : list R) : 0 <= dot v v.
Proof.
  induction v as [|a v IH]; simpl; [lra|].
  pose proof (Rle_0_sqr a) as S. unfold Rsqr in S. lra.
Qed.

Lemma dot_scaled (k : R) (v : list R) :
  dot (map (fun x => x / k) v) (map (fun x => x / k) v) = dot v v / (k * k).
Proof.
  induction v as [|a v IH]; simpl.
  - unfold Rdiv. ring.
  - rewrite IH. unfold Rdiv. rewrite Rinv_mult. ring.
Qed.

(** Dividing a non-zero row by its norm gives a unit row. *)
Lemma norm_normalized (v : list R) :
  norm v <> 0 -> norm (map (fun x => x / norm v) v) = 1.
Proof.
  intros Hn. unfold norm at 1. rewrite dot_scaled.
  unfold norm. rewrite sqrt_sqrt by apply dot_self_nonneg.
  unfold norm in Hn.
  assert (dot v v <> 0).
  { intros E. apply Hn. rewrite E. apply sqrt_0. }
  replace (dot v v / dot v v) with 1 by (field; assumption).
  apply sqrt_1.
Qed.

Lemma norm_of_unit (v : list R) : dot v v = 1 -> norm v = 1.
Proof. intros E. unfold norm. rewrite E. apply sqrt_1. Qed.

Lemma sqrt3_sq : sqrt 3 * sqrt 3 = 3.
Proof. apply sqrt_sqrt. lra. Qed.

Lemma catalog_raw_rows_unit :
  Forall (fun r => norm r = 1) (data Triangulation2D.catalog_raw).
Proof.
  pose proof sqrt3_sq as S3.
  unfold Triangulation2D.catalog_raw, array; simpl.
  repeat (apply Forall_cons; [apply norm_of_unit; simpl; lra|]).
  apply Forall_nil.
Qed.

Lemma catalog_rows_unit :
  Forall (fun r => norm r = 1) (data Triangulation2D.catalog).
Proof.
  unfold Triangulation2D.catalog, Triangulation2D.normalize_rows.
  cbn [data]. apply Forall_map.
  eapply Forall_impl; [|exact catalog_raw_rows_unit].
  intros r Hr. apply norm_normalized. rewrite Hr. lra.
Qed.

Lemma nth_zip_with (f : R -> R -> R) (a b : list R) (j : nat) :
  (j < length a)%nat -> (j < length b)%nat ->
  nth j (zip_with f a b) 0 = f (nth j a 0) (nth j b 0).
Proof.
  revert b j. induction a as [|x a IH]; intros [|y b] j Ha Hb;
    simpl in *; try lia.
  destruct j as [|j]; [reflexivity|]. apply IH; lia.
Qed.

Lemma length_zip_with (f : R -> R -> R) (a b : list R) :
  length a = length b -> length (zip_with f a b) = length a.
Proof.
  revert b. induction a as [|x a IH]; intros [|y b] H; simpl in *; try lia.
  f_equal. apply IH. lia.
Qed.

Lemma nth_map_in (f : R -> R) (l : list R) (j : nat) :
  (j < length l)%nat -> nth j (map f l) 0 = f (nth j l 0).
Proof.
  intros Hj. rewrite (nth_indep _ 0 (f 0)) by now rewrite length_map.
  apply map_nth.
Qed.

Lemma radec_unit (d r : R) :
  (cos d * cos r) * (cos d * cos r) + ((cos d * sin r) * (cos d * sin r)
  + (sin d * sin d + 0)) = 1.
Proof.
  pose proof (sin2_cos2 d) as Hd. pose proof (sin2_cos2 r) as Hr.
  unfold Rsqr in *.
  replace ((cos d * cos r) * (cos d * cos r) + ((cos d * sin r) * (cos d * sin r)
           + (sin d * sin d + 0)))
    with (cos d * cos d * (sin r * sin r + cos r * cos r) + sin d * sin d)
    by ring.
  rewrite Hr. lra.
Qed.

(** The rows of [np.vstack([x, y, z]).T] are unit when x, y, z are so
    entry by entry. *)
Lemma stacked_rows_unit (x y z : list R) :
  (forall j, (j < length x)%nat ->
     nth j x 0 * nth j x 0 + (nth j y 0 * nth j y 0 + (nth j z 0 * nth j z 0 + 0))
     = 1) ->
  Forall (fun r => norm r = 1)
         (data (transpose (mk_ndarray 3 (length x) [x; y; z]))).
Proof.
  intros H. cbn [transpose data ncols nrows].
  apply Forall_forall. intros r Hr.
  apply in_map_iff in Hr as (j & <- & Hj). apply in_seq in Hj.
  apply norm_of_unit. unfold col; simpl. apply H. lia.
Qed.

(** Every array that [radec_to_unitvec] returns has unit rows. *)
Lemma radec_to_unitvec_unit_rows (ra_deg dec_deg : list R) (out : ndarray) :
  radec_to_unitvec ra_deg dec_deg = Ok out ->
  Forall (fun r => norm r = 1) (data out).
Proof.
  unfold radec_to_unitvec, broadcast, radians.
  rewrite !length_map.
  destruct (Nat.eqb (length dec_deg) (length ra_deg)) eqn:E.
  - apply Nat.eqb_eq in E. unfold bind at 1 2.
    unfold vstack. cbn [forallb]. unfold bind.
    destruct (_ && _); [|discriminate].
    intros H. apply Ok_inj in H. subst out.
    apply stacked_rows_unit. intros j Hj.
    assert (Hd : (j < length dec_deg)%nat).
    { rewrite length_zip_with in Hj by (rewrite !length_map; lia).
      now rewrite !length_map in Hj. }
    assert (Hr : (j < length ra_deg)%nat) by lia.
    rewrite !nth_zip_with by (rewrite !length_map; assumption).
    rewrite !nth_map_in by (rewrite ?length_map; assumption).
    apply radec_unit.
  - destruct (Nat.eqb (length dec_deg) 1) eqn:E1.
    + apply Nat.eqb_eq in E1. unfold bind at 1 2.
      unfold vstack. cbn [forallb]. unfold bind.
      rewrite !length_map, E1.
      rewrite Nat.eqb_refl.
      destruct (Nat.eqb 1 (length ra_deg)) eqn:E2.
      * apply Nat.eqb_eq in E2. rewrite E1, <- E2 in E. discriminate.
      * simpl. discriminate.
    + destruct (Nat.eqb (length ra_deg) 1) eqn:E2; [|simpl; discriminate].
      apply Nat.eqb_eq in E2.
      destruct ra_deg as [|r0 [|? ?]]; try discriminate E2.
      unfold bind at 1 2.
      unfold vstack. cbn [forallb]. unfold bind.
      destruct (_ && _); [|discriminate].
      intros H. apply Ok_inj in H. subst out.
      apply stacked_rows_unit. intros j Hj.
      rewrite !length_map in Hj. cbn [map nth].
      rewrite !nth_map_in by (rewrite ?length_map; assumption).
      apply radec_unit.
Qed.

(** C10.  Every vector used by the solve has unit magnitude: for all
    right ascensions and declinations (two arrays of one length), every row
    of the output of [radec_to_unitvec] has Euclidean norm exactly 1, and
    every row of the 2D catalog after the normalisation step has Euclidean
    norm 1. *)
Theorem radec_and_catalog_rows_unit (ra_deg dec_deg : list R) :
  length ra_deg = length dec_deg ->
  (exists out : ndarray,
      radec_to_unitvec ra_deg dec_deg = Ok out /\
      shape out = (length ra_deg, 3%nat) /\
      Forall (fun r => norm r = 1) (data out)) /\
  Forall (fun r => norm r = 1) (data Triangulation2D.catalog).
Proof.
  intros Hlen. split; [|exact catalog_rows_unit].
  destruct (radec_to_unitvec ra_deg dec_deg) as [out | e] eqn:E.
  - exists out. split; [reflexivity|].
    split; [|now apply (radec_to_unitvec_unit_rows ra_deg dec_deg)].
    revert E. unfold radec_to_unitvec, broadcast, radians.
    rewrite !length_map, <- Hlen, Nat.eqb_refl. unfold bind at 1 2.
    unfold vstack. cbn [forallb]. unfold bind.
    destruct (_ && _); [|discriminate].
    intros H. apply Ok_inj in H. subst out. unfold shape; simpl.
    rewrite length_zip_with by (rewrite !length_map; lia).
    now rewrite !length_map, Hlen.
  - exfalso. revert E. unfold radec_to_unitvec, broadcast, radians.
    rewrite !length_map, <- Hlen, Nat.eqb_refl. unfold bind at 1 2.
    unfold vstack. cbn [forallb]. unfold bind.
    rewrite !length_zip_with by (rewrite !length_map; lia).
    rewrite !length_map, <- Hlen, !Nat.eqb_refl. simpl. discriminate.
Qed.

Lemma radec_and_catalog_rows_unit_witness :
  (exists out : ndarray,
      radec_to_unitvec [59.507642; 236.067574] [-13.509013; 6.425833] = Ok out /\
      shape out = (2%nat, 3%nat) /\
      Forall (fun r => norm r = 1) (data out)) /\
  Forall (fun r => norm r = 1) (data Triangulation2D.catalog).
Proof.
  apply (@radec_and_catalog_rows_unit
           [59.507642; 236.067574] [-13.509013; 6.425833]).
  reflexivity.
Defined.

End UnitVectors.

(** ** The 2D scenario *)

Ltac array_eq :=
  repeat match goal with
         | |- Ok _ = Ok _ => apply f_equal
         | |- mk_ndarray _ _ _ = mk_ndarray _ _ _ => apply f_equal
         | |- @eq (list _) (_ :: _) (_ :: _) => apply f_equal2
         | |- @eq (list _) nil nil => reflexivity
         end.

Section Planar.

Lemma normalize_unit_rows (rows : list (list R)) :
  Forall (fun r => norm r = 1) rows ->
  map (fun r => map (fun x => x / norm r) r) rows = rows.
Proof.
  induction 1 as [|r rows Hr _ IH]; simpl; [reflexivity|].
  rewrite IH, Hr. f_equal.
  rewrite <- (map_id r) at 2. apply map_ext. intros x. field.
Qed.

(** The typed-in catalog is already unit: normalisation leaves it as is. *)
Lemma catalog_is_raw : Triangulation2D.catalog = Triangulation2D.catalog_raw.
Proof.
  unfold Triangulation2D.catalog, Triangulation2D.normalize_rows.
  rewrite (normalize_unit_rows catalog_raw_rows_unit). reflexivity.
Qed.

Lemma catalog_cross_covariance :
  matmul (transpose Triangulation2D.catalog) Triangulation2D.catalog
  = Ok (mk_ndarray 2 2 [[2.5; 0]; [0; 2.5]]).
Proof.
  rewrite catalog_is_raw. pose proof sqrt3_sq as S3.
  unfold matmul, transpose, Triangulation2D.catalog_raw, array; simpl.
  array_eq; lra.
Qed.

Lemma scaled_identity_svd_ok :
  svd_ok Triangulation2D.scaled_identity_svd
         Triangulation2D.catalog Triangulation2D.catalog.
Proof.
  intros H HH. rewrite catalog_cross_covariance in HH.
  apply Ok_inj in HH. subst H.
  unfold Triangulation2D.scaled_identity_svd, svd_spec.
  split; [split; [reflexivity | repeat constructor]|].
  split; [split; [reflexivity | repeat constructor]|].
  split; [reflexivity|]. split; [reflexivity|]. split; [reflexivity|].
  split; [split; unfold matmul, transpose, eye; simpl; array_eq; lra|].
  split; [split; unfold matmul, transpose, eye; simpl; array_eq; lra|].
  split; [repeat (apply Forall_cons; [lra|]); apply Forall_nil|].
  split; [simpl; lra|].
  unfold matmul, eye, diag, bind; simpl. array_eq; lra.
Qed.

(** C3, on the code.  In the 2D scenario nothing is solved: SciPy rejects
    the (5,2) catalog when the 30 degree rotation is applied to it (the
    notebook records this [ValueError]), and for any (5,2) array of observed
    vectors [solve_attitude] itself ends in [ValueError], since the 2x2
    matrix V.Ut is not a (3,3) rotation matrix.  No angle is produced. *)
Theorem triangulation_2d_raises
        (svd : ndarray -> ndarray * list R * ndarray) (observed2 : ndarray) :
  shape observed2 = (5%nat, 2%nat) ->
  svd_ok svd observed2 Triangulation2D.catalog ->
  Triangulation2D.observed = Raise ValueError /\
  solve_attitude svd observed2 Triangulation2D.catalog = Raise ValueError.
Proof.
  intros Hs Hsvd. split; [reflexivity|].
  unfold shape in Hs. injection Hs as Hn Hc.
  unfold svd_ok in Hsvd. unfold solve_attitude.
  destruct (matmul (transpose observed2) Triangulation2D.catalog)
    as [H | e] eqn:EH.
  - specialize (Hsvd H eq_refl).
    assert (SH : shape H = (2%nat, 2%nat)).
    { revert EH. unfold matmul.
      destruct (Nat.eqb _ _); [|discriminate].
      intros X. apply Ok_inj in X. subst H. unfold shape; simpl.
      now rewrite Hc. }
    unfold shape in SH. injection SH as SH1 SH2.
    unfold bind at 1. destruct (svd H) as [[U sg] Vt].
    destruct Hsvd as (_ & _ & SU & SVt & _).
    rewrite SH1 in SU. rewrite SH2 in SVt.
    unfold shape in SU, SVt. injection SU as U1 U2. injection SVt as V1 V2.
    unfold matmul, transpose; simpl. rewrite V1, U2. simpl.
    unfold Rotation.from_matrix, shape; simpl. now rewrite V2.
  - exfalso. revert EH. unfold matmul, transpose; simpl. rewrite Hn.
    discriminate.
Qed.

Lemma triangulation_2d_raises_witness :
  Triangulation2D.observed = Raise ValueError /\
  solve_attitude Triangulation2D.scaled_identity_svd
                 Triangulation2D.catalog Triangulation2D.catalog
  = Raise ValueError.
Proof.
  apply (@triangulation_2d_raises Triangulation2D.scaled_identity_svd
                                  Triangulation2D.catalog).
  - reflexivity.
  - exact scaled_identity_svd_ok.
Defined.

End Planar.

(** ** The cross-covariance matrix *)

Lemma wf_rows3 (vs : list vec3) : wf (rows3 vs).
Proof.
  split; [reflexivity|]. unfold rows3, array; simpl.
  apply Forall_map, Forall_forall. reflexivity.
Qed.

(** C5.  For every finite sequence of correspondence pairs (two arrays of
    the same number of rows), the matrix H = observed.T @ catalog computed
    inside [solve_attitude] is the sum over i of the outer products
    observed_i (x) reference_i: the spec's weighted sum B with the default
    uniform weight 1.0, and it is this B that the solver decomposes. *)
Theorem cross_covariance_is_outer_sum
        (svd : ndarray -> ndarray * list R * ndarray)
        (observed catalog : ndarray) :
  wf observed -> wf catalog -> nrows observed = nrows catalog ->
  let B := mk_ndarray (ncols observed) (ncols catalog)
             (weighted_outer_sum (ncols observed) (ncols catalog)
                (uniform_weights (nrows observed))
                (data observed) (data catalog)) in
  matmul (transpose observed) catalog = Ok B /\
  solve_attitude svd observed catalog
  = (let '(U, _, Vt) := svd B in
     R_est <- matmul (transpose Vt) (transpose U) ;;
     Rotation.from_matrix R_est).
Proof.
  intros [Hon Hoc] [Hcn Hcc] Hn B.
  assert (E : matmul (transpose observed) catalog = Ok B).
  { unfold matmul, B. simpl.
    rewrite Hn, Nat.eqb_refl. f_equal. f_equal.
    rewrite <- Hn, <- Hon.
    rewrite weighted_outer_sum_uniform by (auto; lia).
    now rewrite map_map. }
  split; [exact E|].
  unfold solve_attitude. now rewrite E.
Qed.

Lemma cross_covariance_is_outer_sum_witness :
  let B := mk_ndarray 3 3
             (weighted_outer_sum 3 3 (uniform_weights 3)
                (data (rows3 mirror_observed)) (data (rows3 mirror_catalog))) in
  matmul (transpose (rows3 mirror_observed)) (rows3 mirror_catalog) = Ok B /\
  solve_attitude mirror_svd (rows3 mirror_observed) (rows3 mirror_catalog)
  = (let '(U, _, Vt) := mirror_svd B in
     R_est <- matmul (transpose Vt) (transpose U) ;;
     Rotation.from_matrix R_est).
Proof.
  apply (@cross_covariance_is_outer_sum
           mirror_svd (rows3 mirror_observed) (rows3 mirror_catalog)).
  - apply wf_rows3.
  - apply wf_rows3.
  - reflexivity.
Defined.

(** * Further properties of the notebooks' code *)

(** ** The solver returns the best-fitting orthogonal matrix *)

Section BestFit.





(** An orthogonal matrix keeps inner products. *)
Lemma orthogonal3_vdot (Q : mat3) (u v : vec3) :
  orthogonal3 Q -> vdot (mvec Q u) (mvec Q v) = vdot u v.
Proof.
  intros [H _]. rewrite vdot_mvec, <- mvec_mmul, H. now rewrite mvec_I3.
Qed.








End BestFit.

(** ** When the answer depends on the SVD routine, and when it does not *)

Section WellDefined.

Lemma mdiag_pos_def (s1 s2 s3 : R) :
  0 < s1 -> 0 < s2 -> 0 < s3 -> pos_def (mdiag s1 s2 s3).
Proof.
  intros H1 H2 H3 [x y z]. unfold vdot, mvec, mdiag, vzero; simpl. intros E.
  pose proof (Rle_0_sqr x) as Sx. pose proof (Rle_0_sqr y) as Sy.
  pose proof (Rle_0_sqr z) as Sz. unfold Rsqr in *.
  assert (Ex : s1 * (x * x) = 0) by nra.
  assert (Ey : s2 * (y * y) = 0) by nra.
  assert (Ez : s3 * (z * z) = 0) by nra.
  apply Rmult_integral in Ex as [Ex | Ex]; [lra|].
  apply Rmult_integral in Ey as [Ey | Ey]; [lra|].
  apply Rmult_integral in Ez as [Ez | Ez]; [lra|].
  apply Rmult_integral in Ex. apply Rmult_integral in Ey.
  apply Rmult_integral in Ez.
  f_equal; tauto.
Qed.

Lemma mdiag_pos_semidef (s1 s2 s3 : R) :
  0 <= s1 -> 0 <= s2 -> 0 <= s3 -> pos_semidef (mdiag s1 s2 s3).
Proof.
  intros H1 H2 H3 [x y z]. unfold vdot, mvec, mdiag; simpl.
  pose proof (wsum_nonneg x y z H1 H2 H3). lra.
Qed.

(** The singular values of a non-singular matrix are positive. *)
Lemma singular_values_pos (u vt : mat3) (s1 s2 s3 : R) :
  orthogonal3 u -> orthogonal3 vt ->
  0 <= s1 -> 0 <= s2 -> 0 <= s3 ->
  det3 (mmul (mmul u (mdiag s1 s2 s3)) vt) <> 0 ->
  0 < s1 /\ 0 < s2 /\ 0 < s3.
Proof.
  intros Hu Hvt H1 H2 H3 Hd.
  rewrite !det3_mmul, det3_mdiag in Hd.
  assert (s1 <> 0) by (intros ->; apply Hd; ring).
  assert (s2 <> 0) by (intros ->; apply Hd; ring).
  assert (s3 <> 0) by (intros ->; apply Hd; ring).
  repeat split; lra.
Qed.

(** Any two singular-value decompositions of a non-singular matrix give
    the same product V.Ut. *)
Lemma svd_factors_unique (h u vt u' vt' : mat3) (s1 s2 s3 s1' s2' s3' : R) :
  orthogonal3 u -> orthogonal3 vt -> orthogonal3 u' -> orthogonal3 vt' ->
  0 <= s1 -> 0 <= s2 -> 0 <= s3 -> 0 <= s1' -> 0 <= s2' -> 0 <= s3' ->
  h = mmul (mmul u (mdiag s1 s2 s3)) vt ->
  h = mmul (mmul u' (mdiag s1' s2' s3')) vt' ->
  det3 h <> 0 ->
  mmul (mtr vt') (mtr u') = mmul (mtr vt) (mtr u).
Proof.
  intros Hu Hvt Hu' Hvt' H1 H2 H3 H1' H2' H3' E E' Hd.
  rewrite E in Hd.
  destruct (singular_values_pos Hu Hvt H1 H2 H3 Hd) as (P1 & P2 & P3).
  set (D := mdiag s1 s2 s3) in *.
  set (M := mmul (mmul (mtr vt) D) (mtr (mtr vt))).
  assert (HM : mmul (mmul u vt) M = mmul (mmul u' (mdiag s1' s2' s3')) vt').
  { rewrite <- E', E. unfold M. rewrite mtr_mtr, !mmul_assoc.
    rewrite <- (mmul_assoc vt (mtr vt)). destruct Hvt as [_ Hvt].
    now rewrite Hvt, mmul_I3_l. }
  rewrite <- (mtr_mmul u vt).
  apply (polar_unique (M:=M) (s1:=s1') (s2:=s2') (s3:=s3')); auto.
  - now apply orthogonal3_mmul.
  - unfold M. apply conj_symmetric. apply mtr_mdiag.
  - unfold M. apply conj_pos_semidef. now apply mdiag_pos_semidef.
  - unfold M. apply conj_pos_def; [now apply orthogonal3_mtr|].
    now apply mdiag_pos_def.
Qed.


(** For a non-singular cross-covariance the rotation returned by
    [solve_attitude] does not depend on which singular-value decomposition
    the SVD routine picks. *)
Theorem solve_attitude_independent_of_svd
        (svd svd' : ndarray -> ndarray * list R * ndarray)
        (observed catalog : list vec3) :
  length observed = length catalog ->
  svd_ok svd (rows3 observed) (rows3 catalog) ->
  svd_ok svd' (rows3 observed) (rows3 catalog) ->
  det3 (cov3 observed catalog) <> 0 ->
  solve_attitude svd (rows3 observed) (rows3 catalog)
  = solve_attitude svd' (rows3 observed) (rows3 catalog).
Proof.
  intros Hlen Hsvd Hsvd' Hd.
  destruct (solve_attitude_3d Hlen Hsvd)
    as (u & vt & s1 & s2 & s3 & Ou & Ovt & P1 & P2 & P3 & Hh & Hs).
  destruct (solve_attitude_3d Hlen Hsvd')
    as (u' & vt' & s1' & s2' & s3' & Ou' & Ovt' & P1' & P2' & P3' & Hh' & Hs').
  rewrite Hs, Hs'. do 2 f_equal. symmetry.
  apply (svd_factors_unique Ou Ovt Ou' Ovt' P1 P2 P3 P1' P2' P3' Hh Hh' Hd).
Qed.

Lemma solve_attitude_independent_of_svd_witness :
  solve_attitude quarter_svd (rows3 quarter_observed) (rows3 axes_catalog)
  = solve_attitude (const_svd I3 [1; 1; 1] (mtr (mtr quarter_turn)))
                   (rows3 quarter_observed) (rows3 axes_catalog).
Proof.
  apply (@solve_attitude_independent_of_svd
           quarter_svd (const_svd I3 [1; 1; 1] (mtr (mtr quarter_turn)))
           quarter_observed axes_catalog).
  - reflexivity.
  - exact quarter_svd_ok.
  - apply const_svd_ok; try lra; try reflexivity.
    + apply orthogonal3_I3.
    + apply orthogonal3_mtr, orthogonal3_mtr, orthogonal3_quarter_turn.
    + mat3_calc.
  - replace (det3 (cov3 quarter_observed axes_catalog)) with 1 by mat3_calc.
    lra.
Defined.



End WellDefined.

(** ** Changes of frame, order and scale *)

Section Invariance.

Lemma cov3_mvec_l (Q : mat3) (observed reference : list vec3) :
  cov3 (map (mvec Q) observed) reference = mmul Q (cov3 observed reference).
Proof.
  revert reference. induction observed as [|o obs IH]; intros [|c refs]; simpl;
    try (symmetry; apply mmul_mzero_r).
  now rewrite IH, mmul_madd3_r, outer3_mvec_l.
Qed.



Lemma cov3_vscale_l (k : R) (observed reference : list vec3) :
  cov3 (map (vscale k) observed) reference
  = mmul (mdiag k k k) (cov3 observed reference).
Proof.
  revert reference. induction observed as [|o obs IH]; intros [|c refs]; simpl;
    try (unfold mmul, mzero, mdiag; simpl; f_equal; ring).
  rewrite IH. destruct o, c, (cov3 obs refs).
  unfold mmul, madd3, outer3, vscale, mdiag; simpl. f_equal; ring.
Qed.

Lemma cov3_pairs_perm (pairs pairs' : list (vec3 * vec3)) :
  Permutation pairs pairs' ->
  cov3 (map fst pairs) (map snd pairs) = cov3 (map fst pairs') (map snd pairs').
Proof.
  induction 1 as [| [o c] l l' _ IH | [o c] [o' c'] l | l l' l'' _ IH1 _ IH2];
    simpl.
  - reflexivity.
  - now rewrite IH.
  - destruct (cov3 (map fst l) (map snd l)), o, c, o', c'.
    unfold madd3, outer3; simpl. f_equal; ring.
  - now rewrite IH1.
Qed.

(** With a non-singular H, any decomposition of H tells what
    [solve_attitude] returns. *)
Lemma solve_attitude_from_factors
      (svd : ndarray -> ndarray * list R * ndarray)
      (observed catalog : list vec3) (u vt : mat3) (s1 s2 s3 : R) :
  length observed = length catalog ->
  svd_ok svd (rows3 observed) (rows3 catalog) ->
  det3 (cov3 observed catalog) <> 0 ->
  orthogonal3 u -> orthogonal3 vt -> 0 <= s1 -> 0 <= s2 -> 0 <= s3 ->
  cov3 observed catalog = mmul (mmul u (mdiag s1 s2 s3)) vt ->
  solve_attitude svd (rows3 observed) (rows3 catalog)
  = Ok (Rotation.mk (mmul (mtr vt) (mtr u))).
Proof.
  intros Hlen Hsvd Hd Ou Ovt P1 P2 P3 Hh.
  destruct (solve_attitude_3d Hlen Hsvd)
    as (u' & vt' & s1' & s2' & s3' & Ou' & Ovt' & P1' & P2' & P3' & Hh' & Hs').
  rewrite Hs'. do 2 f_equal.
  apply (svd_factors_unique Ou Ovt Ou' Ovt' P1 P2 P3 P1' P2' P3' Hh Hh' Hd).
Qed.

(** The order of the correspondences is irrelevant: listing the same
    pairs in another order gives the same result, whatever the SVD
    routine. *)
Theorem solve_attitude_order_irrelevant
        (svd : ndarray -> ndarray * list R * ndarray)
        (pairs pairs' : list (vec3 * vec3)) :
  Permutation pairs pairs' ->
  solve_attitude svd (rows3 (map fst pairs)) (rows3 (map snd pairs))
  = solve_attitude svd (rows3 (map fst pairs')) (rows3 (map snd pairs')).
Proof.
  intros HP. unfold solve_attitude.
  rewrite !matmul_rows3 by now rewrite !length_map.
  now rewrite (cov3_pairs_perm HP).
Qed.

Lemma solve_attitude_order_irrelevant_witness :
  solve_attitude mirror_svd
    (rows3 (map fst [(e1, e1); (e2, e2); (V3 0 0 (-1), e3)]))
    (rows3 (map snd [(e1, e1); (e2, e2); (V3 0 0 (-1), e3)]))
  = solve_attitude mirror_svd
      (rows3 (map fst [(e2, e2); (V3 0 0 (-1), e3); (e1, e1)]))
      (rows3 (map snd [(e2, e2); (V3 0 0 (-1), e3); (e1, e1)])).
Proof.
  apply (@solve_attitude_order_irrelevant mirror_svd
           [(e1, e1); (e2, e2); (V3 0 0 (-1), e3)]
           [(e2, e2); (V3 0 0 (-1), e3); (e1, e1)]).
  apply Permutation_cons_append.
Defined.




(** The solver does not normalise, and need not: scaling every observed
    vector by the same positive factor leaves the answer unchanged
    (non-singular H). *)
Theorem solve_attitude_scale_invariant
        (svd : ndarray -> ndarray * list R * ndarray)
        (k : R) (observed catalog : list vec3) :
  length observed = length catalog ->
  0 < k ->
  svd_ok svd (rows3 observed) (rows3 catalog) ->
  svd_ok svd (rows3 (map (vscale k) observed)) (rows3 catalog) ->
  det3 (cov3 observed catalog) <> 0 ->
  solve_attitude svd (rows3 (map (vscale k) observed)) (rows3 catalog)
  = solve_attitude svd (rows3 observed) (rows3 catalog).
Proof.
  intros Hlen Hk Hsvd Hsvd' Hd.
  destruct (solve_attitude_3d Hlen Hsvd)
    as (u & vt & s1 & s2 & s3 & Ou & Ovt & P1 & P2 & P3 & Hh & Hs).
  rewrite Hs.
  apply (@solve_attitude_from_factors svd (map (vscale k) observed) catalog
           u vt (k * s1) (k * s2) (k * s3)); auto.
  - now rewrite length_map.
  - rewrite cov3_vscale_l, det3_mmul, det3_mdiag.
    apply Rmult_integral_contrapositive_currified; [|exact Hd].
    assert (0 < k * k * k) by (repeat apply Rmult_lt_0_compat; assumption).
    lra.
  - apply Rmult_le_pos; lra.
  - apply Rmult_le_pos; lra.
  - apply Rmult_le_pos; lra.
  - rewrite cov3_vscale_l, Hh. destruct u, vt.
    unfold mmul, mdiag; simpl. f_equal; ring.
Qed.

End Invariance.

Section InvarianceRuns.

Lemma rotation_svd_ok (h : mat3) (observed catalog : list vec3) :
  length observed = length catalog ->
  orthogonal3 h -> cov3 observed catalog = h ->
  svd_ok rotation_svd (rows3 observed) (rows3 catalog).
Proof.
  intros Hlen Hh E H HH.
  assert (C : svd_ok (const_svd h [1; 1; 1] I3) (rows3 observed) (rows3 catalog)).
  { apply const_svd_ok; auto; try lra; [apply orthogonal3_I3|].
    rewrite E. destruct h. unfold mmul, mdiag, I3; simpl. f_equal; ring. }
  specialize (C H HH).
  rewrite (matmul_rows3 observed catalog Hlen) in HH. apply Ok_inj in HH.
  subst H. rewrite E in *. exact C.
Qed.

Lemma diagonal_svd_ok (a b c : R) (observed catalog : list vec3) :
  length observed = length catalog ->
  0 <= c -> c <= b -> b <= a ->
  cov3 observed catalog = mdiag a b c ->
  svd_ok diagonal_svd (rows3 observed) (rows3 catalog).
Proof.
  intros Hlen Hc Hb Ha E H HH.
  assert (C : svd_ok (const_svd I3 [a; b; c] I3) (rows3 observed) (rows3 catalog)).
  { apply const_svd_ok; auto; try apply orthogonal3_I3.
    rewrite E. unfold mmul, mdiag, I3; simpl. f_equal; ring. }
  specialize (C H HH).
  rewrite (matmul_rows3 observed catalog Hlen) in HH. apply Ok_inj in HH.
  subst H. rewrite E in *. exact C.
Qed.


Ltac mat3_calc' :=
  cbv [quarter_observed axes_catalog half_turn e1 e2 e3 vzero quarter_turn
       vscale cov3 map madd3 outer3 mzero mmul mdiag I3 mtr mvec det3 trace
       vx vy vz m11 m12 m13 m21 m22 m23 m31 m32 m33];
  try (f_equal; ring); try ring.




Lemma solve_attitude_scale_invariant_witness :
  solve_attitude diagonal_svd
    (rows3 (map (vscale 2) axes_catalog)) (rows3 axes_catalog)
  = solve_attitude diagonal_svd (rows3 axes_catalog) (rows3 axes_catalog).
Proof.
  apply (@solve_attitude_scale_invariant diagonal_svd 2 axes_catalog axes_catalog).
  - reflexivity.
  - lra.
  - apply (@diagonal_svd_ok 1 1 1); try lra; [reflexivity | mat3_calc'].
  - apply (@diagonal_svd_ok 2 2 2); try lra; [reflexivity | mat3_calc'].
  - replace (det3 (cov3 axes_catalog axes_catalog)) with 1 by mat3_calc'.
    lra.
Defined.

End InvarianceRuns.

(** ** The Gaia notebook, end to end *)

Section Gaia.

Lemma sin2_cos2' (x : R) : sin x * sin x + cos x * cos x = 1.
Proof. exact (sin2_cos2 x). Qed.

Lemma turn_z_proper (c : R) :
  proper_rotation (M3 (cos c) (- sin c) 0  (sin c) (cos c) 0  0 0 1).
Proof.
  pose proof (sin2_cos2' c) as K.
  split; [split|]; unfold mmul, mtr, I3, det3; simpl;
    try (f_equal; lra); lra.
Qed.

Lemma turn_y_proper (b : R) :
  proper_rotation (M3 (cos b) 0 (sin b)  0 1 0  (- sin b) 0 (cos b)).
Proof.
  pose proof (sin2_cos2' b) as K.
  split; [split|]; unfold mmul, mtr, I3, det3; simpl;
    try (f_equal; lra); lra.
Qed.

Lemma turn_x_proper (a : R) :
  proper_rotation (M3 1 0 0  0 (cos a) (- sin a)  0 (sin a) (cos a)).
Proof.
  pose proof (sin2_cos2' a) as K.
  split; [split|]; unfold mmul, mtr, I3, det3; simpl;
    try (f_equal; lra); lra.
Qed.

Lemma proper_rotation_mmul (P Q : mat3) :
  proper_rotation P -> proper_rotation Q -> proper_rotation (mmul P Q).
Proof.
  intros [OP DP] [OQ DQ]. split; [now apply orthogonal3_mmul|].
  rewrite det3_mmul, DP, DQ. ring.
Qed.

(** Every triple of Euler angles gives a proper rotation. *)
Lemma from_euler_xyz_proper (ax ay az : R) :
  proper_rotation (Rotation.matrix (Rotation.from_euler_xyz ax ay az)).
Proof.
  unfold Rotation.from_euler_xyz; simpl.
  apply proper_rotation_mmul; [apply turn_z_proper|].
  apply proper_rotation_mmul; [apply turn_y_proper | apply turn_x_proper].
Qed.

(** What [radec_to_unitvec] returns is the transpose of three stacked
    rows of one length. *)
Lemma radec_to_unitvec_stacked (ra_deg dec_deg : list R) (out : ndarray) :
  radec_to_unitvec ra_deg dec_deg = Ok out ->
  exists x y z : list R, out = transpose (mk_ndarray 3 (length x) [x; y; z]).
Proof.
  unfold radec_to_unitvec.
  destruct (broadcast Rmult _ _) as [x | e]; [|discriminate].
  unfold bind at 1.
  destruct (broadcast Rmult _ _) as [y | e]; [|discriminate].
  unfold bind at 1. unfold vstack.
  destruct (forallb _ _); [|discriminate].
  unfold bind. intros H. apply Ok_inj in H. subst out.
  now exists x, y, (map sin (radians dec_deg)).
Qed.

Lemma radec_to_unitvec_wf (ra_deg dec_deg : list R) (out : ndarray) :
  radec_to_unitvec ra_deg dec_deg = Ok out -> wf out /\ ncols out = 3%nat.
Proof.
  intros H. apply radec_to_unitvec_stacked in H as (x & y & z & ->).
  split; [|reflexivity]. split; simpl.
  - now rewrite length_map, length_seq.
  - apply Forall_map, Forall_forall. reflexivity.
Qed.

Lemma dot_row3 (u v : vec3) : dot (row3 u) (row3 v) = vdot u v.
Proof. destruct u, v. unfold vdot; simpl. ring. Qed.

(** An orthogonal rotation applied to an (n,3) array keeps the shape and
    the norm of every row. *)
Lemma apply_keeps_norms (rot : Rotation.t) (vs : list vec3) :
  orthogonal3 (Rotation.matrix rot) ->
  Forall (fun r => norm r = 1) (data (rows3 vs)) ->
  Forall (fun r => norm r = 1)
         (data (rows3 (map (mvec (Rotation.matrix rot)) vs))).
Proof.
  intros Ho. unfold rows3, array; simpl. rewrite !Forall_map.
  apply Forall_impl. intros v. unfold norm.
  now rewrite !dot_row3, (orthogonal3_vdot v v Ho).
Qed.

(** The simulated observations are unit vectors: for every pair of
    catalog columns that [radec_to_unitvec] accepts, [true_rot.apply]
    succeeds and returns an array of the same shape whose rows all have
    norm 1. *)
Theorem gaia_observed_vecs_unit (ra dec : list R) (catalog_vecs : ndarray) :
  radec_to_unitvec ra dec = Ok catalog_vecs ->
  exists observed_vecs : ndarray,
    Rotation.apply GaiaNotebook.true_rot catalog_vecs = Ok observed_vecs /\
    shape observed_vecs = shape catalog_vecs /\
    Forall (fun r => norm r = 1) (data observed_vecs).
Proof.
  intros H.
  pose proof (radec_to_unitvec_unit_rows ra dec H) as Hu.
  destruct (radec_to_unitvec_wf ra dec H) as [Hw Hc].
  rewrite (rows3_surjective Hw Hc) in Hu |- *.
  rewrite apply_rows3. eexists. split; [reflexivity|]. split.
  - unfold shape, rows3, array; simpl. now rewrite !length_map.
  - apply apply_keeps_norms; [|exact Hu].
    apply from_euler_xyz_proper.
Qed.

Lemma axes_from_radec :
  radec_to_unitvec [0; 90; 0] [0; 0; 90] = Ok (rows3 [e1; e2; e3]).
Proof.
  unfold radec_to_unitvec, broadcast, radians, vstack, rows3, array,
    transpose, col, e1, e2, e3; simpl.
  replace (0 * PI / 180) with 0 by lra.
  replace (90 * PI / 180) with (PI / 2) by lra.
  rewrite cos_0, sin_0, cos_PI2, sin_PI2.
  unfold row3; simpl. array_eq; lra.
Qed.

Lemma gaia_observed_vecs_unit_witness :
  exists observed_vecs : ndarray,
    Rotation.apply GaiaNotebook.true_rot (rows3 [e1; e2; e3]) = Ok observed_vecs /\
    shape observed_vecs = shape (rows3 [e1; e2; e3]) /\
    Forall (fun r => norm r = 1) (data observed_vecs).
Proof.
  apply (@gaia_observed_vecs_unit [0; 90; 0] [0; 0; 90] (rows3 [e1; e2; e3])).
  exact axes_from_radec.
Defined.

(** The notebook's estimate is the inverse of the simulated attitude: for
    every pair of catalog columns whose unit vectors span 3-space,
    [solve_attitude(observed_vecs, catalog_vecs)] returns the rotation with
    matrix true_rot^T, and applying it to the observed vectors gives the
    catalog vectors back. *)
Theorem gaia_estimate_is_inverse
        (svd : ndarray -> ndarray * list R * ndarray)
        (ra dec : list R) (catalog_vecs observed_vecs : ndarray) :
  radec_to_unitvec ra dec = Ok catalog_vecs ->
  Rotation.apply GaiaNotebook.true_rot catalog_vecs = Ok observed_vecs ->
  spanning (map vec3_of_row (data catalog_vecs)) ->
  svd_ok svd observed_vecs catalog_vecs ->
  GaiaNotebook.estimate svd ra dec
  = Ok (Rotation.mk (mtr (Rotation.matrix GaiaNotebook.true_rot))) /\
  Rotation.apply (Rotation.mk (mtr (Rotation.matrix GaiaNotebook.true_rot)))
                 observed_vecs
  = Ok catalog_vecs.
Proof.
  intros Hc Ha Hspan Hsvd.
  destruct (radec_to_unitvec_wf ra dec Hc) as [Hw Hn].
  pose proof (rows3_surjective Hw Hn) as Erows.
  destruct (from_euler_xyz_proper 10 5 25) as [Ho _].
  fold GaiaNotebook.true_rot in Ho.
  unfold GaiaNotebook.estimate. rewrite Hc. unfold bind at 1.
  rewrite Ha. unfold bind at 1.
  destruct GaiaNotebook.true_rot as [R0]. simpl in Ho |- *.
  set (cat := map vec3_of_row (data catalog_vecs)) in *.
  assert (Eobs : observed_vecs = rows3 (map (mvec R0) cat)).
  { rewrite Erows, apply_rows3 in Ha. now apply Ok_inj in Ha. }
  rewrite Eobs. split.
  - rewrite Eobs in Hsvd. rewrite Erows in Hsvd |- *.
    now apply solve_attitude_noiseless.
  - rewrite apply_rows3. cbn [Rotation.matrix]. rewrite Erows. do 2 f_equal.
    rewrite map_map. rewrite <- (map_id cat) at 2.
    apply map_ext. intros c. destruct Ho as [Ho1 _].
    now rewrite <- mvec_mmul, Ho1, mvec_I3.
Qed.

Lemma gaia_estimate_is_inverse_witness :
  GaiaNotebook.estimate rotation_svd [0; 90; 0] [0; 0; 90]
  = Ok (Rotation.mk (mtr (Rotation.matrix GaiaNotebook.true_rot))) /\
  Rotation.apply (Rotation.mk (mtr (Rotation.matrix GaiaNotebook.true_rot)))
    (rows3 (map (mvec (Rotation.matrix GaiaNotebook.true_rot)) [e1; e2; e3]))
  = Ok (rows3 [e1; e2; e3]).
Proof.
  apply (@gaia_estimate_is_inverse rotation_svd [0; 90; 0] [0; 0; 90]
           (rows3 [e1; e2; e3])
           (rows3 (map (mvec (Rotation.matrix GaiaNotebook.true_rot))
                       [e1; e2; e3]))).
  - exact axes_from_radec.
  - apply apply_rows3.
  - exact spanning_axes.
  - apply (@rotation_svd_ok (Rotation.matrix GaiaNotebook.true_rot)).
    + reflexivity.
    + apply from_euler_xyz_proper.
    + rewrite cov3_mvec_l.
      replace (cov3 [e1; e2; e3] [e1; e2; e3]) with I3
        by (cbv [cov3 e1 e2 e3 madd3 outer3 mzero I3 vx vy vz
                 m11 m12 m13 m21 m22 m23 m31 m32 m33]; f_equal; ring).
      apply mmul_I3_r.
Defined.

End Gaia.

(** ** [radec_to_unitvec]: accepted inputs, periodicity, injectivity *)

Section RaDec.

(** Which inputs [radec_to_unitvec] accepts: two arrays of one length, or a
    single right ascension broadcast over the declinations; the result has
    one row of three per declination.  Anything else - such as a single
    declination with several right ascensions - ends in [ValueError]. *)
Theorem radec_to_unitvec_accepts (ra_deg dec_deg : list R) :
  match radec_to_unitvec ra_deg dec_deg with
  | Ok out =>
      (length ra_deg = length dec_deg \/ length ra_deg = 1%nat) /\
      shape out = (length dec_deg, 3%nat)
  | Raise e =>
      e = ValueError /\
      length ra_deg <> length dec_deg /\ length ra_deg <> 1%nat
  end.
Proof.
  unfold radec_to_unitvec, broadcast, radians.
  rewrite !length_map.
  destruct (Nat.eqb (length dec_deg) (length ra_deg)) eqn:E.
  - apply Nat.eqb_eq in E. unfold bind at 1 2. unfold vstack. cbn [forallb].
    rewrite !length_zip_with by (rewrite !length_map; lia).
    rewrite !length_map, Nat.eqb_refl. simpl.
    split; [left; lia | reflexivity].
  - apply Nat.eqb_neq in E.
    destruct (Nat.eqb (length dec_deg) 1) eqn:E1.
    + apply Nat.eqb_eq in E1. unfold bind at 1 2. unfold vstack. cbn [forallb].
      rewrite !length_map, E1, Nat.eqb_refl.
      destruct (Nat.eqb 1 (length ra_deg)) eqn:E2.
      * apply Nat.eqb_eq in E2. lia.
      * apply Nat.eqb_neq in E2. simpl. repeat split; lia.
    + apply Nat.eqb_neq in E1.
      destruct (Nat.eqb (length ra_deg) 1) eqn:E2.
      * apply Nat.eqb_eq in E2. unfold bind at 1 2. unfold vstack.
        cbn [forallb]. rewrite !length_map, !Nat.eqb_refl. simpl.
        split; [right; assumption | reflexivity].
      * apply Nat.eqb_neq in E2. simpl. repeat split; lia.
Qed.

Lemma cos_plus_2PI (x : R) : cos (x + 2 * PI) = cos x.
Proof. rewrite cos_plus, cos_2PI, sin_2PI. ring. Qed.

Lemma sin_plus_2PI (x : R) : sin (x + 2 * PI) = sin x.
Proof. rewrite sin_plus, cos_2PI, sin_2PI. ring. Qed.

(** Right ascension is an angle: adding a full turn of 360 degrees to
    every right ascension does not change the output. *)
Theorem radec_to_unitvec_ra_periodic (ra_deg dec_deg : list R) :
  radec_to_unitvec (map (fun a => a + 360) ra_deg) dec_deg
  = radec_to_unitvec ra_deg dec_deg.
Proof.
  unfold radec_to_unitvec, radians.
  assert (C : map cos (map (fun x => x * PI / 180) (map (fun a => a + 360) ra_deg))
              = map cos (map (fun x => x * PI / 180) ra_deg)).
  { rewrite !map_map. apply map_ext. intros a.
    replace ((a + 360) * PI / 180) with (a * PI / 180 + 2 * PI) by lra.
    apply cos_plus_2PI. }
  assert (S : map sin (map (fun x => x * PI / 180) (map (fun a => a + 360) ra_deg))
              = map sin (map (fun x => x * PI / 180) ra_deg)).
  { rewrite !map_map. apply map_ext. intros a.
    replace ((a + 360) * PI / 180) with (a * PI / 180 + 2 * PI) by lra.
    apply sin_plus_2PI. }
  now rewrite C, S.
Qed.

(** On two arrays of one length the output is, row by row, the unit
    vector of each star. *)
Lemma radec_data (ra dec : list R) :
  length ra = length dec ->
  map (fun j =>
         col j [zip_with Rmult (map cos (map (fun x => x * PI / 180) dec))
                               (map cos (map (fun x => x * PI / 180) ra));
                zip_with Rmult (map cos (map (fun x => x * PI / 180) dec))
                               (map sin (map (fun x => x * PI / 180) ra));
                map sin (map (fun x => x * PI / 180) dec)])
      (seq 0 (length ra))
  = map row3 (zip_with unitvec ra dec).
Proof.
  revert dec. induction ra as [|r ra IH]; intros [|d dec] Hlen;
    simpl in *; try lia; [reflexivity|].
  f_equal. rewrite <- seq_shift, map_map. apply IH. lia.
Qed.

Lemma length_zip_unitvec (ra dec : list R) :
  length ra = length dec -> length (zip_with unitvec ra dec) = length ra.
Proof.
  revert dec. induction ra as [|r ra IH]; intros [|d dec] Hlen;
    simpl in *; try lia. f_equal. apply IH. lia.
Qed.

Lemma radec_to_unitvec_rows (ra_deg dec_deg : list R) :
  length ra_deg = length dec_deg ->
  radec_to_unitvec ra_deg dec_deg = Ok (rows3 (zip_with unitvec ra_deg dec_deg)).
Proof.
  intros Hlen. unfold radec_to_unitvec, broadcast, radians.
  rewrite !length_map, <- Hlen, Nat.eqb_refl. unfold bind at 1 2.
  unfold vstack. cbn [forallb]. unfold bind.
  rewrite !length_zip_with by (rewrite !length_map; lia).
  rewrite !length_map, <- Hlen, !Nat.eqb_refl. cbn [andb].
  unfold transpose, rows3, array. cbn [ncols nrows data].
  rewrite length_map, (length_zip_unitvec _ _ Hlen).
  do 2 f_equal. now apply radec_data.
Qed.

Lemma cos_1_small (x : R) : - (2 * PI) < x < 2 * PI -> sin x = 0 -> cos x = 1 -> x = 0.
Proof.
  intros Hx Hs Hc. apply sin_eq_0_0 in Hs as [k Hk].
  pose proof PI_RGT_0 as Hpi.
  assert (K : (-2 < k < 2)%Z).
  { split; apply lt_IZR; subst x; nra. }
  assert (Hk3 : (k = -1 \/ k = 0 \/ k = 1)%Z) by lia.
  destruct Hk3 as [-> | [-> | ->]].
  - exfalso. subst x. replace (-1 * PI) with (- PI) in Hc by ring.
    rewrite cos_neg, cos_PI in Hc. lra.
  - subst x. ring.
  - exfalso. subst x. rewrite Rmult_1_l, cos_PI in Hc. lra.
Qed.

(** Away from the poles a sky position is determined by its unit vector. *)
Lemma unitvec_inj (r r' d d' : R) :
  0 <= r < 360 -> 0 <= r' < 360 -> -90 < d < 90 -> -90 < d' < 90 ->
  unitvec r d = unitvec r' d' -> r = r' /\ d = d'.
Proof.
  intros Hr Hr' Hd Hd' E. unfold unitvec in E. injection E as Ex Ey Ez.
  pose proof PI_RGT_0 as Hpi.
  assert (D : d * PI / 180 = d' * PI / 180).
  { apply sin_inj; [split; nra | split; nra | exact Ez]. }
  assert (Hdd : d = d') by nra. subst d'. split; [|reflexivity].
  assert (Cpos : 0 < cos (d * PI / 180)).
  { apply cos_gt_0; nra. }
  assert (Ec : cos (r * PI / 180) = cos (r' * PI / 180)).
  { apply (Rmult_eq_reg_l (cos (d * PI / 180))); [exact Ex | lra]. }
  assert (Es : sin (r * PI / 180) = sin (r' * PI / 180)).
  { apply (Rmult_eq_reg_l (cos (d * PI / 180))); [exact Ey | lra]. }
  assert (Z : r * PI / 180 - r' * PI / 180 = 0).
  { apply cos_1_small.
    - split; nra.
    - rewrite sin_minus, Ec, Es. ring.
    - rewrite cos_minus, Ec, Es.
      pose proof (sin2_cos2 (r' * PI / 180)) as K. unfold Rsqr in K. lra. }
  nra.
Qed.

Lemma rows3_inj (l l' : list vec3) : rows3 l = rows3 l' -> l = l'.
Proof.
  unfold rows3, array. intros H. injection H as _ H.
  revert l' H. induction l as [|[a b c] l IH]; intros [|[a' b' c'] l'] H;
    simpl in H; try discriminate; [reflexivity|].
  injection H as -> -> -> H. f_equal. now apply IH.
Qed.

(** Distinct sky positions give distinct unit vectors: with right
    ascensions in [0, 360) and declinations strictly between the poles,
    two pairs of catalog columns with the same output are the same. *)
Theorem radec_to_unitvec_injective
        (ra_deg dec_deg ra_deg' dec_deg' : list R) (out : ndarray) :
  length ra_deg = length dec_deg -> length ra_deg' = length dec_deg' ->
  Forall (fun a => 0 <= a < 360) ra_deg ->
  Forall (fun a => 0 <= a < 360) ra_deg' ->
  Forall (fun d => -90 < d < 90) dec_deg ->
  Forall (fun d => -90 < d < 90) dec_deg' ->
  radec_to_unitvec ra_deg dec_deg = Ok out ->
  radec_to_unitvec ra_deg' dec_deg' = Ok out ->
  ra_deg = ra_deg' /\ dec_deg = dec_deg'.
Proof.
  intros Hl Hl' Hr Hr' Hd Hd' E E'.
  rewrite (radec_to_unitvec_rows _ _ Hl) in E.
  rewrite (radec_to_unitvec_rows _ _ Hl') in E'.
  apply Ok_inj in E. apply Ok_inj in E'. rewrite <- E' in E.
  apply rows3_inj in E. clear E' out.
  revert dec_deg ra_deg' dec_deg' Hl Hl' Hr Hr' Hd Hd' E.
  induction ra_deg as [|r ra IH]; intros [|d dec] [|r' ra'] [|d' dec']
    Hl Hl' Hr Hr' Hd Hd' E; simpl in *; try lia; try discriminate;
    [now split|].
  injection E as Ex Ey Ez Erest.
  apply Forall_cons_iff in Hr as [Hr0 Hr].
  apply Forall_cons_iff in Hr' as [Hr0' Hr'].
  apply Forall_cons_iff in Hd as [Hd0 Hd].
  apply Forall_cons_iff in Hd' as [Hd0' Hd'].
  assert (U : unitvec r d = unitvec r' d') by (unfold unitvec; congruence).
  destruct (@unitvec_inj r r' d d' Hr0 Hr0' Hd0 Hd0' U) as [-> ->].
  destruct (IH dec ra' dec') as [-> ->]; auto.
Qed.

Lemma radec_to_unitvec_injective_witness :
  [0; 90; 0] = [0; 90; 0] /\ [0; 0; 45] = [0; 0; 45] :> list R.
Proof.
  apply (@radec_to_unitvec_injective
           [0; 90; 0] [0; 0; 45] [0; 90; 0] [0; 0; 45]
           (rows3 (zip_with unitvec [0; 90; 0] [0; 0; 45]))).
  - reflexivity.
  - reflexivity.
  - repeat (apply Forall_cons; [lra|]); apply Forall_nil.
  - repeat (apply Forall_cons; [lra|]); apply Forall_nil.
  - repeat (apply Forall_cons; [lra|]); apply Forall_nil.
  - repeat (apply Forall_cons; [lra|]); apply Forall_nil.
  - apply radec_to_unitvec_rows. reflexivity.
  - apply radec_to_unitvec_rows. reflexivity.
Defined.

End RaDec.

(** ** The parallax notebook *)

Section ParallaxFacts.

Lemma PI_bounds : 3.1415926 < PI < 3.1415927.
Proof.
  pose proof (PI_2_3_7_ineq 3) as [L U].
  unfold sum_f_R0, tg_alt, PI_2_3_7_tg, Ratan_seq in L, U.
  simpl in L, U.
  split; lra.
Qed.

(** For a distance that is not zero the function returns
    (baseline / distance) * 648000 / (206265 * pi). *)
Lemma compute_parallax_value (b d : R) :
  d <> 0 ->
  Parallax.compute_parallax b d = Ok (b / d * (648000 / (206265 * PI))).
Proof.
  intros Hd. unfold Parallax.compute_parallax, Parallax.degrees,
               Parallax.AU_PER_PC.
  destruct (Req_dec_T (d * 206265) 0) as [E | _]; [exfalso; lra|].
  f_equal. pose proof PI_RGT_0. field. repeat split; lra.
Qed.

Lemma arcsec_factor_bounds :
  1 - 1 / 1000000 <= 648000 / (206265 * PI) <= 1.
Proof.
  destruct PI_bounds as [L U].
  assert (P : 0 < 206265 * PI) by lra.
  split.
  - apply (Rmult_le_reg_r (206265 * PI)); [exact P|].
    unfold Rdiv at 2. rewrite Rmult_assoc, Rinv_l by lra. lra.
  - apply (Rmult_le_reg_r (206265 * PI)); [exact P|].
    unfold Rdiv. rewrite Rmult_assoc, Rinv_l by lra. lra.
Qed.

(** The parsec constant does its job: for a baseline in AU and a
    distance in parsec, the parallax returned, in arcseconds, is
    baseline / distance to within one part in a million (and never
    above it). *)
Theorem compute_parallax_is_baseline_over_distance (b d : R) :
  0 <= b -> 0 < d ->
  exists theta : R,
    Parallax.compute_parallax b d = Ok theta /\
    (1 - 1 / 1000000) * (b / d) <= theta <= b / d.
Proof.
  intros Hb Hd. exists (b / d * (648000 / (206265 * PI))).
  split; [apply compute_parallax_value; lra|].
  destruct arcsec_factor_bounds as [L U].
  assert (Q : 0 <= b / d).
  { apply Rmult_le_pos; [exact Hb|]. left. now apply Rinv_0_lt_compat. }
  split.
  - rewrite Rmult_comm. now apply Rmult_le_compat_l.
  - rewrite <- (Rmult_1_r (b / d)) at 2. now apply Rmult_le_compat_l.
Qed.

Lemma compute_parallax_is_baseline_over_distance_witness :
  exists theta : R,
    Parallax.compute_parallax 1 1 = Ok theta /\
    (1 - 1 / 1000000) * (1 / 1) <= theta <= 1 / 1.
Proof.
  apply (@compute_parallax_is_baseline_over_distance 1 1); lra.
Defined.

(** A longer baseline or a nearer star never gives a smaller parallax. *)
Theorem compute_parallax_monotone (b1 b2 d1 d2 theta1 theta2 : R) :
  0 <= b1 -> b1 <= b2 -> 0 < d2 -> d2 <= d1 ->
  Parallax.compute_parallax b1 d1 = Ok theta1 ->
  Parallax.compute_parallax b2 d2 = Ok theta2 ->
  theta1 <= theta2.
Proof.
  intros Hb1 Hb Hd2 Hd E1 E2.
  rewrite compute_parallax_value in E1 by lra.
  rewrite compute_parallax_value in E2 by lra.
  apply Ok_inj in E1. apply Ok_inj in E2. subst theta1 theta2.
  destruct arcsec_factor_bounds as [L _].
  apply Rmult_le_compat_r; [lra|].
  assert (I : / d1 <= / d2) by (apply Rinv_le_contravar; lra).
  assert (P1 : 0 <= / d1) by (left; apply Rinv_0_lt_compat; lra).
  unfold Rdiv. apply Rmult_le_compat; lra.
Qed.

Lemma compute_parallax_monotone_witness :
  1 / 2 * (648000 / (206265 * PI)) <= 2 / 1 * (648000 / (206265 * PI)).
Proof.
  apply (@compute_parallax_monotone 1 2 2 1); try lra;
    apply compute_parallax_value; lra.
Defined.

End ParallaxFacts.

(** ** Accepted shapes, mirrored observations, row normalisation *)

Section Shapes.

Variable svd : ndarray -> ndarray * list R * ndarray.



End Shapes.

Section ShapesRuns.




(** Row normalisation, for any array without a zero row: the shape is
    kept, every row of the result has norm 1, and normalising again
    changes nothing. *)
Theorem normalize_rows_unit_and_idempotent (A : ndarray) :
  Forall (fun r => norm r <> 0) (data A) ->
  shape (Triangulation2D.normalize_rows A) = shape A /\
  Forall (fun r => norm r = 1) (data (Triangulation2D.normalize_rows A)) /\
  Triangulation2D.normalize_rows (Triangulation2D.normalize_rows A)
  = Triangulation2D.normalize_rows A.
Proof.
  intros Hnz.
  assert (U : Forall (fun r => norm r = 1)
                     (data (Triangulation2D.normalize_rows A))).
  { unfold Triangulation2D.normalize_rows. cbn [data]. apply Forall_map.
    eapply Forall_impl; [|exact Hnz]. intros r. apply norm_normalized. }
  split; [reflexivity|]. split; [exact U|].
  unfold Triangulation2D.normalize_rows at 1. cbn [nrows ncols].
  rewrite (normalize_unit_rows U).
  unfold Triangulation2D.normalize_rows. reflexivity.
Qed.

Lemma normalize_rows_unit_and_idempotent_witness :
  shape (Triangulation2D.normalize_rows (array 2 [[3; 4]; [0; 2]]))
  = shape (array 2 [[3; 4]; [0; 2]]) /\
  Forall (fun r => norm r = 1)
         (data (Triangulation2D.normalize_rows (array 2 [[3; 4]; [0; 2]]))) /\
  Triangulation2D.normalize_rows
    (Triangulation2D.normalize_rows (array 2 [[3; 4]; [0; 2]]))
  = Triangulation2D.normalize_rows (array 2 [[3; 4]; [0; 2]]).
Proof.
  apply (@normalize_rows_unit_and_idempotent (array 2 [[3; 4]; [0; 2]])).
  unfold array; simpl.
  apply Forall_cons.
  - unfold norm; simpl. replace (3 * 3 + (4 * 4 + 0)) with (5 * 5) by ring.
    rewrite sqrt_square; lra.
  - apply Forall_cons; [|apply Forall_nil].
    unfold norm; simpl. replace (0 * 0 + (2 * 2 + 0)) with (2 * 2) by ring.
    rewrite sqrt_square; lra.
Defined.

End ShapesRuns.
